(** * Topic modelling of customer comments: text normalizer and topic report

    A shallow embedding of the notebook [nb03_modeling-part2.ipynb]:

    - [tokenize], the text normalizer handed to the TF-IDF vectorizer;
    - the pipeline [make_pipeline(TfidfVectorizer(tokenizer=tokenize),
      LatentDirichletAllocation(...))] and its [fit_transform];
    - [display_topics], which prints the top words of every topic.

    Python strings are modelled as [string] over the 256 [ascii] values
    (ASCII text; [lower] and [isspace] act as Python does on that range).
    Python exceptions are values of an error monad.  What the notebook takes
    from NLTK (the word tokenizer, the lemmatizer, the word lists) is a
    record [Nltk], and the numeric factorisation of scikit-learn is a
    parameter [lda_components].  Of scikit-learn itself only what the
    notebook relies on is written out, after the library's documentation:
    how the vectorizer builds its vocabulary and which arguments the two
    estimators refuse when they are fitted. *)

From Stdlib Require Import String Ascii List Bool Arith ZArith QArith Lia.
From Stdlib Require Import Permutation Sorted DecimalString.
Import ListNotations.

Open Scope string_scope.
Open Scope list_scope.
Open Scope nat_scope.

(** ** Python values and exceptions *)

Module Py.

Inductive exn : Type :=
| TypeError (msg : string)
| ValueError (msg : string)
| IndexError (msg : string)
| AttributeError (msg : string)
| NotFittedError (msg : string).

Inductive result (A : Type) : Type :=
| Ok (a : A)
| Raise (e : exn).

Arguments Ok {A} a.
Arguments Raise {A} e.

Definition bind {A B : Type} (m : result A) (k : A -> result B) : result B :=
  match m with
  | Ok a => k a
  | Raise e => Raise e
  end.

(** [for x in xs: acc = body(acc, x)], stopping at the first exception. *)
Fixpoint for_each {A S : Type} (body : S -> A -> result S) (xs : list A) (acc : S)
  : result S :=
  match xs with
  | [] => Ok acc
  | x :: xs' => bind (body acc x) (for_each body xs')
  end.

(** A list comprehension [[f(x) for x in xs]] whose body may raise. *)
Fixpoint comprehension {A B : Type} (f : A -> result B) (xs : list A)
  : result (list B) :=
  match xs with
  | [] => Ok []
  | x :: xs' =>
      bind (f x) (fun y => bind (comprehension f xs') (fun ys => Ok (y :: ys)))
  end.

(** The objects a caller can pass where the notebook expects a [str]. *)
Inductive object : Type :=
| None_
| Str (s : string).

(** *** Characters *)

Definition code (c : ascii) : nat := nat_of_ascii c.

Definition isdigit (c : ascii) : bool := (48 <=? code c) && (code c <=? 57).
Definition isupper (c : ascii) : bool := (65 <=? code c) && (code c <=? 90).
Definition islower (c : ascii) : bool := (97 <=? code c) && (code c <=? 122).

(** The character class [[0-9a-zA-Z]]. *)
Definition is_alnum (c : ascii) : bool := isdigit c || islower c || isupper c.

(** [str.isspace] on one ASCII character: TAB..CR, FS..US and the blank. *)
Definition isspace (c : ascii) : bool :=
  ((9 <=? code c) && (code c <=? 13)) || ((28 <=? code c) && (code c <=? 32)).

Definition lower_char (c : ascii) : ascii :=
  if isupper c then ascii_of_nat (code c + 32) else c.

(** *** Strings *)

Fixpoint map_chars (f : ascii -> ascii) (s : string) : string :=
  match s with
  | EmptyString => EmptyString
  | String c s' => String (f c) (map_chars f s')
  end.

Fixpoint all_chars (p : ascii -> bool) (s : string) : bool :=
  match s with
  | EmptyString => true
  | String c s' => p c && all_chars p s'
  end.

(** [s.lower()] *)
Definition lower (s : string) : string := map_chars lower_char s.

Fixpoint lstrip (s : string) : string :=
  match s with
  | EmptyString => EmptyString
  | String c s' => if isspace c then lstrip s' else s
  end.

Fixpoint rstrip (s : string) : string :=
  match s with
  | EmptyString => EmptyString
  | String c s' =>
      match rstrip s' with
      | EmptyString => if isspace c then EmptyString else String c EmptyString
      | r => String c r
      end
  end.

(** [s.strip()] *)
Definition strip (s : string) : string := rstrip (lstrip s).

(** [sep.join(ls)] *)
Definition join (sep : string) (ls : list string) : string := String.concat sep ls.

(** [w in ls] for a list of strings. *)
Definition contains (ls : list string) (w : string) : bool :=
  existsb (String.eqb w) ls.

(** [re.sub(r'[^0-9a-zA-Z]', ' ', text)]: every character outside the class
    becomes one blank; anything but a string is a [TypeError]. *)
Definition blank_non_alnum (s : string) : string :=
  map_chars (fun c => if is_alnum c then c else " "%char) s.

Definition re_sub_non_alnum (text : object) : result string :=
  match text with
  | Str s => Ok (blank_non_alnum s)
  | None_ => Raise (TypeError "expected string or bytes-like object")
  end.

(** [xs[:n]] for any Python integer [n]: a negative bound counts from the
    end, and a bound past either end is cut to the list, never an error. *)
Definition slice_to {A : Type} (n : Z) (xs : list A) : list A :=
  if (0 <=? n)%Z then firstn (Z.to_nat n) xs
  else firstn (length xs - Z.to_nat (- n)) xs.

(** [xs[i]] for a non-negative index. *)
Definition getitem {A : Type} (xs : list A) (i : nat) : result A :=
  match nth_error xs i with
  | Some x => Ok x
  | None => Raise (IndexError "list index out of range")
  end.

End Py.

Import Py.

Notation "x <- m ;; k" := (Py.bind m (fun x => k))
  (at level 61, m at next level, right associativity).

(** ** The text normalizer *)

(** What the notebook takes from NLTK. *)
Record Nltk : Type := {
  (** [nltk.tokenize.word_tokenize] *)
  word_tokenize : string -> list string;
  (** [WordNetLemmatizer().lemmatize] *)
  lemmatize : string -> string;
  (** [nltk.corpus.words.words()] *)
  words : list string;
  (** [stopwords.words('english')] *)
  stopwords : list string
}.

Section Normalizer.

Variable nltk : Nltk.

Definition STOP_WORDS_ENG : list string :=
  stopwords nltk ++ ["la"; "de"; "le"; "pa"; "del"; "el"].

Definition ENGLISH_VOCABULARY : list string := map lower (words nltk).

(** The test of the first comprehension of [tokenize]. *)
Definition in_english (word : string) : bool :=
  contains ENGLISH_VOCABULARY word && (1 <? String.length word).

Definition tokenize (text : object) : result (list string) :=
  text <- re_sub_non_alnum text ;;
  let tokens := word_tokenize nltk text in
  let tokens := filter in_english tokens in
  let tokens_lem :=
    map (fun token => lemmatize nltk (lower (strip token)))
        (filter (fun token => negb (contains STOP_WORDS_ENG token)) tokens) in
  Ok tokens_lem.

End Normalizer.

(** *** Sample collaborators

    [split_blanks] cuts a text at its white space, which is what the word
    tokenizer does on the letters, digits and blanks that [re.sub] leaves
    whenever none of its contraction patterns applies.  [table_lemmatize]
    looks a form up in a finite table and, like the WordNet lemmatizer,
    returns a form it does not know unchanged. *)

Fixpoint split_blanks (s : string) : list string :=
  match s with
  | EmptyString => []
  | String c s' =>
      if isspace c then split_blanks s'
      else
        match s' with
        | EmptyString => [String c EmptyString]
        | String c' _ =>
            if isspace c' then String c EmptyString :: split_blanks s'
            else
              match split_blanks s' with
              | w :: ws => String c w :: ws
              | [] => [String c EmptyString]
              end
        end
  end.

Fixpoint table_lemmatize (table : list (string * string)) (w : string) : string :=
  match table with
  | [] => w
  | (form, lemma) :: table' =>
      if String.eqb form w then lemma else table_lemmatize table' w
  end.

Definition no_lemmas : list (string * string) := [].

Definition sample_nltk (table : list (string * string)) (words stopwords : list string)
  : Nltk :=
  {| word_tokenize := split_blanks;
     lemmatize := table_lemmatize table;
     words := words;
     stopwords := stopwords |}.

(** ** NumPy: ranking the weights of a topic

    Finite floating-point weights are modelled by the rationals they denote;
    only their order is used. *)

Section Sorting.

Context {A : Type} (leb : A -> A -> bool).

Fixpoint insert_sorted (x : A) (l : list A) : list A :=
  match l with
  | [] => [x]
  | y :: l' => if leb x y then x :: l else y :: insert_sorted x l'
  end.

Fixpoint sort (l : list A) : list A :=
  match l with
  | [] => []
  | x :: l' => insert_sorted x (sort l')
  end.

End Sorting.

(** [enumerate(xs)] *)
Definition enumerate {A : Type} (xs : list A) : list (nat * A) :=
  combine (seq 0 (length xs)) xs.

Definition weight_leb (a b : nat * Q) : bool := Qle_bool (snd a) (snd b).

(** [np.argsort(component)]: the indices of [component] by ascending weight.
    NumPy leaves the order of equal weights to its sorting routine; here they
    stay in index order. *)
Definition argsort (component : list Q) : list nat :=
  map fst (sort weight_leb (enumerate component)).

(** ** scikit-learn: the two steps of the pipeline

    The estimators are records of their constructor arguments and of what
    fitting stores in them.  [lowercase] is [True] unless the caller says
    otherwise: a document is lower-cased before the tokenizer sees it, also
    when the tokenizer is the caller's own. *)

Record TfidfVectorizer : Type := {
  tokenizer : object -> result (list string);
  lowercase : bool;
  vocabulary_ : option (list string)
}.

Record LatentDirichletAllocation : Type := {
  n_components : Z;
  n_jobs : Z;
  random_state : Z;
  components_ : option (list (list Q))
}.

(** [make_pipeline] names its steps after their classes. *)
Record Pipeline : Type := {
  tfidfvectorizer : TfidfVectorizer;
  latentdirichletallocation : LatentDirichletAllocation
}.

Definition build_analyzer (v : TfidfVectorizer) (doc : string)
  : result (list string) :=
  tokenizer v (Str (if lowercase v then lower doc else doc)).

(** A term gets the next free column the first time it is seen. *)
Definition add_feature (vocabulary : list string) (feature : string) : list string :=
  if contains vocabulary feature then vocabulary else vocabulary ++ [feature].

Definition count_vocab (analysed : list (list string)) : list string :=
  fold_left (fun vocabulary doc => fold_left add_feature doc vocabulary) analysed [].

(** The term counts of the documents, one row per document and one column
    per feature name. *)
Definition term_counts (features : list string) (analysed : list (list string))
  : list (list nat) :=
  map (fun doc => map (fun term => count_occ string_dec doc term) features) analysed.

(** [TfidfVectorizer.fit_transform]: the sorted feature names and the term
    counts from which the weights are computed.  With the default [min_df],
    [max_df] and [max_features] no term is pruned; a collection in which no
    term is found is refused. *)
Definition vectorizer_fit_transform (v : TfidfVectorizer) (raw_documents : list string)
  : result (TfidfVectorizer * list (list nat)) :=
  analysed <- comprehension (build_analyzer v) raw_documents ;;
  match count_vocab analysed with
  | [] =>
      Raise (ValueError
               "empty vocabulary; perhaps the documents only contain stop words")
  | vocabulary =>
      let features := sort String.leb vocabulary in
      Ok ({| tokenizer := tokenizer v;
             lowercase := lowercase v;
             vocabulary_ := Some features |},
          term_counts features analysed)
  end.

Definition get_feature_names (v : TfidfVectorizer) : result (list string) :=
  match vocabulary_ v with
  | Some features => Ok features
  | None => Raise (NotFittedError "Vocabulary not fitted or provided")
  end.

(** [repr(k)] of an integer *)
Definition repr (k : Z) : string := NilZero.string_of_int (Z.to_int k).

Section TopicExtractor.

(** The numeric part of fitting the topic model (TF-IDF weighting and
    variational inference on floating-point numbers, possibly on several
    workers): from the term counts, the topic count and the seed to the
    topic-term weights [components_]. *)
Variable lda_components : list (list nat) -> Z -> Z -> list (list Q).

(** [LatentDirichletAllocation.fit]: the topic count is checked to be
    positive, and nothing else about it. *)
Definition lda_fit (lda : LatentDirichletAllocation) (X : list (list nat))
  : result LatentDirichletAllocation :=
  if (n_components lda <=? 0)%Z
  then Raise (ValueError
                ("Invalid 'n_components' parameter: " ++ repr (n_components lda))%string)
  else Ok {| n_components := n_components lda;
             n_jobs := n_jobs lda;
             random_state := random_state lda;
             components_ :=
               Some (lda_components X (n_components lda) (random_state lda)) |}.

(** [model.fit_transform(raw_documents)]; the fitted pipeline is returned in
    place of the mutation of [model]. *)
Definition fit_transform (model : Pipeline) (raw_documents : list string)
  : result Pipeline :=
  fitted <- vectorizer_fit_transform (tfidfvectorizer model) raw_documents ;;
  lda <- lda_fit (latentdirichletallocation model) (snd fitted) ;;
  Ok {| tfidfvectorizer := fst fitted; latentdirichletallocation := lda |}.

End TopicExtractor.

(** ** The report *)

(** [str(n)] *)
Definition str (n : nat) : string := NilEmpty.string_of_uint (Nat.to_uint n).

(** [d[k] = v] on a dictionary kept in insertion order. *)
Fixpoint setitem {V : Type} (d : list (nat * V)) (k : nat) (v : V) : list (nat * V) :=
  match d with
  | [] => [(k, v)]
  | (k', v') :: d' => if k' =? k then (k, v) :: d' else (k', v') :: setitem d' k v
  end.

Definition fitted_components (lda : LatentDirichletAllocation)
  : result (list (list Q)) :=
  match components_ lda with
  | Some components => Ok components
  | None =>
      Raise (AttributeError
               "'LatentDirichletAllocation' object has no attribute 'components_'")
  end.

(** The indices of the top words of one topic:
    [np.argsort(component)[::-1][:number_of_top_words]]. *)
Definition top_word_idx (number_of_top_words : Z) (component : list Q) : list nat :=
  slice_to number_of_top_words (rev (argsort component)).

(** The first loop of [display_topics]. *)
Definition collect_topic_words (number_of_top_words : Z) (vocab : list string)
  (components : list (list Q)) : result (list (nat * list string)) :=
  for_each
    (fun topic_words entry =>
       let word_idx := top_word_idx number_of_top_words (snd entry) in
       words <- comprehension (getitem vocab) word_idx ;;
       Ok (setitem topic_words (fst entry) words))
    (enumerate components) [].

(** The second loop of [display_topics]: the lines it prints. *)
Definition print_topic_words (topic_words : list (nat * list string)) : list string :=
  flat_map
    (fun entry =>
       [("Topic: " ++ str (fst entry + 1))%string;
        ("Words:  " ++ join ", " (snd entry))%string])
    topic_words.

Section Report.

(** The notebook's global [model]. *)
Variable model : Pipeline.

(** [display_topics] returns nothing; its value here is what it prints. *)
Definition display_topics {T : Type} (number_of_top_words : Z) (model_pipeline : T)
  (vocab : list string) : result (list string) :=
  components <- fitted_components (latentdirichletallocation model) ;;
  topic_words <- collect_topic_words number_of_top_words vocab components ;;
  Ok (print_topic_words topic_words).

End Report.

(** ** The notebook, cells 7 to 10, as one function of its settings *)

Section Notebook.

Variable nltk : Nltk.
Variable lda_components : list (list nat) -> Z -> Z -> list (list Q).

Definition make_model (number_of_topics seed : Z) : Pipeline :=
  {| tfidfvectorizer :=
       {| tokenizer := tokenize nltk;
          lowercase := true;
          vocabulary_ := None |};
     latentdirichletallocation :=
       {| n_components := number_of_topics;
          n_jobs := (-1)%Z;
          random_state := seed;
          components_ := None |} |}.

Definition topic_extractor (comments : list string)
  (number_of_topics number_of_top_words seed : Z) : result (list string) :=
  let model := make_model number_of_topics seed in
  model <- fit_transform lda_components model comments ;;
  vocabulary <- get_feature_names (tfidfvectorizer model) ;;
  display_topics model number_of_top_words model vocabulary.

End Notebook.

(** The settings of the notebook's cells. *)
Module Cells.

Definition seed : Z := 42.
Definition number_of_topics : Z := 3.
Definition number_of_top_words : Z := 5.

End Cells.

(** A stand-in for the numeric routine, used to run the notebook on small
    collections: every topic weighs a term by its total count, shifted by
    the topic and column numbers. *)
Definition column_totals (X : list (list nat)) : list nat :=
  match X with
  | [] => []
  | row :: _ =>
      map (fun j => list_sum (map (fun r => nth j r 0) X)) (seq 0 (length row))
  end.

Definition sample_lda (X : list (list nat)) (k seed : Z) : list (list Q) :=
  map (fun topic =>
         map (fun jt => inject_Z (Z.of_nat (3 * snd jt + (fst jt + topic) mod 3)))
             (enumerate (column_totals X)))
      (seq 0 (Z.to_nat k)).

(** Three complaints and the six words they are made of. *)
Definition complaints : list string :=
  ["bad service slow agent"; "bad service unreliable"; "agent slow useless"].

Definition complaints_nltk : Nltk :=
  sample_nltk no_lemmas
              ["bad"; "service"; "slow"; "agent"; "unreliable"; "useless"] [].

(** ** Vocabulary of the statements *)

(** The tokens [tokenize] returns for a string (on a string it never raises). *)
Definition tokens_of (nltk : Nltk) (text : string) : list string :=
  match tokenize nltk (Str text) with
  | Ok tokens => tokens
  | Raise _ => []
  end.



(** The feature names and the term counts the vectorizer computes for a
    collection of comments. *)
Definition corpus_features (nltk : Nltk) (comments : list string) : list string :=
  sort String.leb
       (count_vocab (map (fun doc => tokens_of nltk (lower doc)) comments)).

Definition corpus_counts (nltk : Nltk) (comments : list string) : list (list nat) :=
  term_counts (corpus_features nltk comments)
              (map (fun doc => tokens_of nltk (lower doc)) comments).

(** The weight a topic gives to the term of column [i]. *)
Definition weight (component : list Q) (i : nat) : Q := nth i component 0%Q.

(** [idx] lists columns by descending weight. *)
Definition descending (component : list Q) (idx : list nat) : Prop :=
  StronglySorted (fun i j => (weight component j <= weight component i)%Q) idx.

(** No column left out of [idx] outweighs a column of [idx]. *)
Definition top_ranked (component : list Q) (idx : list nat) : Prop :=
  forall i j, In i idx -> j < length component -> ~ In j idx ->
              (weight component j <= weight component i)%Q.

(** A non-empty token without white space. *)
Definition solid (t : string) : Prop :=
  t <> EmptyString /\ all_chars (fun c => negb (isspace c)) t = true.

(** ** Loading the comments (cells 2 and 3)

    A data frame is the list of its rows, each with its index label; a cell
    is a string or missing.  The table read from the CSV file is an argument. *)

Module Load.

Record ticket : Type := {
  satisfaction : object;
  comment : object
}.

Definition frame (A : Type) : Type := list (Z * A).

(** [column.isin(values)] on one cell: a missing cell is in no list. *)
Definition isin (values : list string) (cell : object) : bool :=
  match cell with
  | Str s => contains values s
  | None_ => false
  end.

(** [df[mask]] *)
Definition boolean_mask {A : Type} (mask : A -> bool) (df : frame A) : frame A :=
  filter (fun row => mask (snd row)) df.

(** [df.comment.to_frame()] *)
Definition comment_frame (df : frame ticket) : frame object :=
  map (fun row => (fst row, comment (snd row))) df.

(** [.dropna()] on a frame of one column: what is left is strings. *)
Fixpoint dropna (df : frame object) : frame string :=
  match df with
  | [] => []
  | (label, Str c) :: df' => (label, c) :: dropna df'
  | (_, None_) :: df' => dropna df'
  end.

(** [.reset_index(drop=True)] *)
Definition reset_index {A : Type} (df : frame A) : frame A :=
  combine (map Z.of_nat (seq 0 (length df))) (map snd df).

(** Cell 3. *)
Definition comments (df_tickets_with_satisfaction : frame ticket) : frame string :=
  let comments :=
    dropna
      (comment_frame
         (boolean_mask (fun t => isin ["Bad"] (satisfaction t))
                       df_tickets_with_satisfaction)) in
  reset_index (boolean_mask (fun c => negb (isin ["N / A"] (Str c))) comments).

End Load.

(** The whole notebook on a table of tickets. *)
Definition notebook (nltk : Nltk)
  (lda_components : list (list nat) -> Z -> Z -> list (list Q))
  (df_tickets_with_satisfaction : Load.frame Load.ticket) : result (list string) :=
  topic_extractor nltk lda_components
                  (map snd (Load.comments df_tickets_with_satisfaction))
                  Cells.number_of_topics Cells.number_of_top_words Cells.seed.

(** The comment a ticket contributes to the corpus, if any. *)
Definition usable_comment (t : Load.ticket) : list string :=
  match Load.satisfaction t, Load.comment t with
  | Str rating, Str c =>
      if String.eqb rating "Bad" && negb (String.eqb c "N / A") then [c] else []
  | _, _ => []
  end.

(** A few tickets. *)
Definition sample_tickets : Load.frame Load.ticket :=
  [ (17, {| Load.satisfaction := Str "Bad"; Load.comment := Str "Bad service" |});
    (4, {| Load.satisfaction := Str "Good"; Load.comment := Str "fast agent" |});
    (8, {| Load.satisfaction := Str "Bad"; Load.comment := None_ |});
    (15, {| Load.satisfaction := Str "Bad"; Load.comment := Str "N / A" |});
    (16, {| Load.satisfaction := None_; Load.comment := Str "slow" |});
    (23, {| Load.satisfaction := Str "Bad"; Load.comment := Str "slow agent" |});
    (42, {| Load.satisfaction := Str "bad"; Load.comment := Str "useless" |}) ]%Z.

(** A fitted pipeline with given topic weights over three terms. *)
Definition fitted_sample (components : list (list Q)) : Pipeline :=
  {| tfidfvectorizer :=
       {| tokenizer := tokenize complaints_nltk;
          lowercase := true;
          vocabulary_ := Some ["agent"; "bad"; "service"] |};
     latentdirichletallocation :=
       {| n_components := Z.of_nat (length components);
          n_jobs := (-1)%Z;
          random_state := Cells.seed;
          components_ := Some components |} |}.

(** * Facts *)

(** ** Characters and strings *)

Ltac each_char c :=
  destruct c as [[] [] [] [] [] [] [] []]; vm_compute; try reflexivity; try discriminate.

Lemma lower_char_idem (c : ascii) : lower_char (lower_char c) = lower_char c.
Proof. each_char c. Qed.

Lemma alnum_not_space (c : ascii) : is_alnum c = true -> isspace c = false.
Proof. each_char c. Qed.

Lemma lower_idem (s : string) : lower (lower s) = lower s.
Proof.
  unfold lower. induction s as [|c s IH]; simpl; [reflexivity|].
  now rewrite lower_char_idem, IH.
Qed.

Lemma contains_In (ls : list string) (w : string) :
  contains ls w = true <-> In w ls.
Proof.
  unfold contains. rewrite existsb_exists. split.
  - intros [x [Hx E]]. apply String.eqb_eq in E. now subst.
  - intros H. exists w. split; [assumption | apply String.eqb_refl].
Qed.

Lemma contains_false (ls : list string) (w : string) :
  contains ls w = false <-> ~ In w ls.
Proof.
  rewrite <- contains_In. destruct (contains ls w); split; congruence.
Qed.

Lemma all_chars_weaken (p q : ascii -> bool) (s : string) :
  (forall c, p c = true -> q c = true) ->
  all_chars p s = true -> all_chars q s = true.
Proof.
  intros Hpq. induction s as [|c s IH]; simpl; [reflexivity|].
  rewrite !andb_true_iff. intros [Hc Hs]. auto.
Qed.

Lemma lstrip_no_space (s : string) :
  all_chars (fun c => negb (isspace c)) s = true -> lstrip s = s.
Proof.
  destruct s as [|c s]; simpl; [reflexivity|].
  rewrite andb_true_iff, negb_true_iff. now intros [-> _].
Qed.

Lemma rstrip_no_space (s : string) :
  all_chars (fun c => negb (isspace c)) s = true -> rstrip s = s.
Proof.
  induction s as [|c s IH]; simpl; [reflexivity|].
  rewrite andb_true_iff, negb_true_iff. intros [Hc Hs].
  rewrite (IH Hs), Hc. now destruct s.
Qed.

Lemma strip_no_space (s : string) :
  all_chars (fun c => negb (isspace c)) s = true -> strip s = s.
Proof.
  intros H. unfold strip. rewrite (lstrip_no_space s H). now apply rstrip_no_space.
Qed.

Lemma strip_alnum (s : string) : all_chars is_alnum s = true -> strip s = s.
Proof.
  intros H. apply strip_no_space. revert H. apply all_chars_weaken.
  intros c Hc. now rewrite (alnum_not_space c Hc).
Qed.

Lemma blank_non_alnum_chars (s : string) :
  all_chars (fun c => is_alnum c || Ascii.eqb c " ") (blank_non_alnum s) = true.
Proof.
  induction s as [|c s IH]; simpl; [reflexivity|].
  fold (blank_non_alnum s). rewrite IH, andb_true_r.
  destruct (is_alnum c) eqn:E; [now rewrite E | reflexivity].
Qed.



(** ** Joining tokens with blanks and cutting the text again *)

Lemma all_chars_app (p : ascii -> bool) (s t : string) :
  all_chars p (s ++ t)%string = all_chars p s && all_chars p t.
Proof.
  induction s as [|c s IH]; simpl; [reflexivity|].
  now rewrite IH, andb_assoc.
Qed.

Lemma all_chars_join (p : ascii -> bool) (tokens : list string) :
  p " "%char = true ->
  Forall (fun t => all_chars p t = true) tokens ->
  all_chars p (join " " tokens) = true.
Proof.
  intros Hblank. induction 1 as [|t tokens Ht Hts IH]; [reflexivity|].
  unfold join in *. destruct tokens as [|t' tokens]; [exact Ht|].
  change (String.concat " " (t :: t' :: tokens))
    with (t ++ " " ++ String.concat " " (t' :: tokens))%string.
  rewrite !all_chars_app, Ht, IH. simpl. now rewrite Hblank.
Qed.

Lemma blank_non_alnum_id (s : string) :
  all_chars (fun c => is_alnum c || Ascii.eqb c " ") s = true ->
  blank_non_alnum s = s.
Proof.
  unfold blank_non_alnum. induction s as [|c s IH]; simpl; [reflexivity|].
  rewrite andb_true_iff, orb_true_iff. intros [[Hc | Hc] Hs]; rewrite (IH Hs).
  - now rewrite Hc.
  - apply Ascii.eqb_eq in Hc. now subst c.
Qed.

Lemma split_blanks_solid (t : string) : solid t -> split_blanks t = [t].
Proof.
  intros [Hne Hsp]. induction t as [|c t IH]; [congruence|].
  simpl in Hsp. apply andb_true_iff in Hsp. destruct Hsp as [Hc Ht].
  apply negb_true_iff in Hc.
  destruct t as [|c' t'].
  - simpl. now rewrite Hc.
  - assert (Hc' : isspace c' = false).
    { simpl in Ht. apply andb_true_iff in Ht. now apply negb_true_iff. }
    change (split_blanks (String c (String c' t')))
      with (if isspace c then split_blanks (String c' t')
            else if isspace c' then [String c ""] ++ split_blanks (String c' t')
                 else match split_blanks (String c' t') with
                      | w :: ws => String c w :: ws
                      | [] => [String c ""]
                      end).
    rewrite Hc, Hc', IH; [reflexivity | discriminate | assumption].
Qed.

Lemma split_blanks_solid_blank (t rest : string) :
  solid t -> split_blanks (t ++ String " " rest) = t :: split_blanks rest.
Proof.
  intros [Hne Hsp]. induction t as [|c t IH]; [congruence|].
  simpl in Hsp. apply andb_true_iff in Hsp. destruct Hsp as [Hc Ht].
  apply negb_true_iff in Hc.
  destruct t as [|c' t'].
  - simpl. now rewrite Hc.
  - assert (Hc' : isspace c' = false).
    { simpl in Ht. apply andb_true_iff in Ht. now apply negb_true_iff. }
    change (split_blanks ((String c (String c' t')) ++ String " " rest))
      with (if isspace c then split_blanks (String c' t' ++ String " " rest)
            else if isspace c'
                 then [String c ""] ++ split_blanks (String c' t' ++ String " " rest)
                 else match split_blanks (String c' t' ++ String " " rest) with
                      | w :: ws => String c w :: ws
                      | [] => [String c ""]
                      end).
    rewrite Hc, Hc', IH; [reflexivity | discriminate | assumption].
Qed.

Lemma split_blanks_join (tokens : list string) :
  Forall solid tokens -> split_blanks (join " " tokens) = tokens.
Proof.
  induction 1 as [|t tokens Ht Hts IH]; [reflexivity|].
  unfold join in *. destruct tokens as [|t' tokens].
  - now apply split_blanks_solid.
  - change (String.concat " " (t :: t' :: tokens))
      with (t ++ String " " (String.concat " " (t' :: tokens)))%string.
    now rewrite (split_blanks_solid_blank _ _ Ht), IH.
Qed.

Lemma alnum_solid (t : string) :
  0 < String.length t -> all_chars is_alnum t = true -> solid t.
Proof.
  intros Hlen Halnum. split.
  - intros ->. simpl in Hlen. lia.
  - revert Halnum. apply all_chars_weaken. intros c Hc.
    now rewrite (alnum_not_space c Hc).
Qed.

(** ** The text normalizer *)

Section NormalizerFacts.

Variable nltk : Nltk.

Local Notation "'VOCABULARY'" := (ENGLISH_VOCABULARY nltk).
Local Notation "'STOP'" := (STOP_WORDS_ENG nltk).
Local Notation "'normalize'" := (tokenize nltk).

Lemma tokenize_Str (text : string) :
  normalize (Str text) =
  Ok (map (fun token => lemmatize nltk (lower (strip token)))
          (filter (fun token => negb (contains STOP token))
                  (filter (in_english nltk)
                          (word_tokenize nltk (blank_non_alnum text))))).
Proof. reflexivity. Qed.

Lemma tokenize_tokens_of (text : string) :
  normalize (Str text) = Ok (tokens_of nltk text).
Proof. reflexivity. Qed.

(** Every word of the vocabulary is in lower case. *)
Lemma vocabulary_lower (w : string) : In w VOCABULARY -> lower w = w.
Proof.
  unfold ENGLISH_VOCABULARY. rewrite in_map_iff.
  intros [w0 [<- _]]. apply lower_idem.
Qed.

Lemma in_english_iff (w : string) :
  in_english nltk w = true <-> In w VOCABULARY /\ 1 < String.length w.
Proof.
  unfold in_english. now rewrite andb_true_iff, contains_In, Nat.ltb_lt.
Qed.

(** A token is lemmatized exactly when it passes both comprehensions. *)
Lemma tokenize_In (text : string) (out : list string) (e : string) :
  normalize (Str text) = Ok out ->
  (In e out <->
   exists token,
     In token (word_tokenize nltk (blank_non_alnum text)) /\
     In token VOCABULARY /\ 1 < String.length token /\ ~ In token STOP /\
     e = lemmatize nltk (lower (strip token))).
Proof.
  rewrite tokenize_Str. intros [= <-]. rewrite in_map_iff. split.
  - intros [token [<- Hin]].
    apply filter_In in Hin. destruct Hin as [Hin Hstop].
    apply filter_In in Hin. destruct Hin as [Hin Heng].
    apply in_english_iff in Heng. destruct Heng as [Hvoc Hlen].
    apply negb_true_iff, contains_false in Hstop.
    exists token. repeat split; assumption.
  - intros [token (Hin & Hvoc & Hlen & Hstop & ->)].
    exists token. split; [reflexivity|].
    apply filter_In. split.
    + apply filter_In. split; [assumption|]. now apply in_english_iff.
    + now apply negb_true_iff, contains_false.
Qed.

(** C4 (as amended): on the empty string the normalizer returns the empty
    token sequence, provided the word tokenizer finds no token in the empty
    text; a null document is not a string and makes [re.sub] raise a
    [TypeError]. *)
Theorem tokenize_empty_and_null :
  word_tokenize nltk "" = [] ->
  tokenize nltk (Str "") = Ok [] /\
  tokenize nltk None_
  = Raise (TypeError "expected string or bytes-like object").
Proof.
  intros Hempty. split; [|reflexivity].
  rewrite tokenize_Str. change (blank_non_alnum "") with "". now rewrite Hempty.
Qed.

(** C5: with a vocabulary containing service and bad (and not 123), stop
    words containing this, is and so (and neither service nor bad), a
    lemmatizer that leaves service and bad alone and a word tokenizer that
    cuts the cleaned text at its blanks, the text [This service is SO
    bad!!! 123] is normalized to [service; bad]. *)
Theorem tokenize_example :
  word_tokenize nltk "This service is SO bad    123"
  = ["This"; "service"; "is"; "SO"; "bad"; "123"] ->
  lemmatize nltk "service" = "service" ->
  lemmatize nltk "bad" = "bad" ->
  In "service" (ENGLISH_VOCABULARY nltk) ->
  In "bad" (ENGLISH_VOCABULARY nltk) ->
  ~ In "123" (ENGLISH_VOCABULARY nltk) ->
  In "this" (STOP_WORDS_ENG nltk) ->
  In "is" (STOP_WORDS_ENG nltk) ->
  In "so" (STOP_WORDS_ENG nltk) ->
  ~ In "service" (STOP_WORDS_ENG nltk) ->
  ~ In "bad" (STOP_WORDS_ENG nltk) ->
  tokenize nltk (Str "This service is SO bad!!! 123") = Ok ["service"; "bad"].
Proof.
  intros Htok Hservice Hbad Vservice Vbad V123 _ Sis _ Sservice Sbad.
  rewrite tokenize_Str.
  change (blank_non_alnum "This service is SO bad!!! 123")
    with "This service is SO bad    123".
  rewrite Htok.
  assert (HThis : in_english nltk "This" = false).
  { apply not_true_is_false. rewrite in_english_iff. intros [H _].
    apply vocabulary_lower in H. discriminate H. }
  assert (HSO : in_english nltk "SO" = false).
  { apply not_true_is_false. rewrite in_english_iff. intros [H _].
    apply vocabulary_lower in H. discriminate H. }
  assert (H123 : in_english nltk "123" = false).
  { apply not_true_is_false. rewrite in_english_iff. now intros [H _]. }
  assert (Eservice : in_english nltk "service" = true).
  { apply in_english_iff. split; [assumption | simpl; lia]. }
  assert (Ebad : in_english nltk "bad" = true).
  { apply in_english_iff. split; [assumption | simpl; lia]. }
  apply contains_false in Sservice, Sbad. apply contains_In in Sis.
  cbn [filter]. rewrite HThis, HSO, H123, Eservice, Ebad.
  destruct (in_english nltk "is"); cbn [filter negb map];
    rewrite ?Sis, Sservice, Sbad; cbn [negb filter map];
    change (lower (strip "service")) with "service";
    change (lower (strip "bad")) with "bad";
    now rewrite Hservice, Hbad.
Qed.


(** C8 (as amended): re-normalizing the blank-joined output returns the
    output, under the hypotheses that every output token is in the reference
    vocabulary, is not a stop word, is longer than one character, consists of
    letters and digits, is left unchanged by the lemmatizer, and that the word
    tokenizer cuts the joined text at its blanks. *)
Theorem tokenize_idempotent (text : string) (out : list string) :
  tokenize nltk (Str text) = Ok out ->
  (forall t, In t out ->
     In t (ENGLISH_VOCABULARY nltk) /\
     ~ In t (STOP_WORDS_ENG nltk) /\
     1 < String.length t /\
     all_chars is_alnum t = true /\
     lemmatize nltk t = t) ->
  word_tokenize nltk (blank_non_alnum (join " " out)) =
    split_blanks (blank_non_alnum (join " " out)) ->
  tokenize nltk (Str (join " " out)) = Ok out.
Proof.
  intros _ Hout Htok. rewrite tokenize_Str, Htok.
  assert (Hclean : blank_non_alnum (join " " out) = join " " out).
  { apply blank_non_alnum_id, all_chars_join; [reflexivity|].
    apply Forall_forall. intros t Ht.
    destruct (Hout t Ht) as (_ & _ & _ & Halnum & _).
    revert Halnum. apply all_chars_weaken. now intros c ->. }
  rewrite Hclean, split_blanks_join.
  2:{ apply Forall_forall. intros t Ht.
      destruct (Hout t Ht) as (_ & _ & Hlen & Halnum & _).
      apply alnum_solid; [lia | assumption]. }
  f_equal. clear Htok Hclean.
  induction out as [|t out IH]; [reflexivity|].
  destruct (Hout t (or_introl eq_refl)) as (Hvoc & Hstop & Hlen & Halnum & Hlem).
  assert (Heng : in_english nltk t = true) by now apply in_english_iff.
  apply contains_false in Hstop.
  cbn [filter]. rewrite Heng. cbn [filter]. rewrite Hstop. cbn [negb map].
  rewrite (strip_alnum t Halnum), (vocabulary_lower t Hvoc), Hlem.
  f_equal. apply IH. intros t' Ht'. apply Hout. now right.
Qed.

End NormalizerFacts.

(** *** The normalizer on small vocabularies *)

(** C1: the vocabulary test is case-sensitive.  A token that is not already
    in lower case never passes it, so a capitalised word is dropped whatever
    the word list holds: its membership in the lower-cased vocabulary is
    tested before the token is lower-cased.  The same word in lower case is
    retained. *)
Theorem capitalised_word_is_dropped :
  (forall (nltk : Nltk) (token : string),
     lower token <> token -> in_english nltk token = false) /\
  (forall (lemmatize : string -> string) (words stopwords : list string),
     tokenize {| word_tokenize := split_blanks;
                 lemmatize := lemmatize;
                 words := "service" :: words;
                 stopwords := stopwords |}
              (Str "Service")
     = Ok []) /\
  tokenize (sample_nltk no_lemmas ["service"] []) (Str "service") = Ok ["service"].
Proof.
  assert (Hcase : forall (nltk : Nltk) (token : string),
             lower token <> token -> in_english nltk token = false).
  { intros nltk token Hcase. apply not_true_is_false.
    rewrite in_english_iff. intros [H _].
    now apply vocabulary_lower in H. }
  split; [exact Hcase|]. split; [|reflexivity].
  intros lemmatize words stopwords.
  set (nltk := {| word_tokenize := split_blanks;
                  lemmatize := lemmatize;
                  words := "service" :: words;
                  stopwords := stopwords |}).
  rewrite tokenize_Str.
  change (word_tokenize nltk (blank_non_alnum "Service")) with ["Service"].
  cbn [filter]. rewrite (Hcase nltk "Service"); [reflexivity | discriminate].
Qed.



Lemma tokenize_null_raises :
  tokenize (sample_nltk no_lemmas ["service"; "bad"] []) None_
  = Raise (TypeError "expected string or bytes-like object").
Proof. reflexivity. Qed.

Lemma tokenize_empty_and_null_witness :
  tokenize (sample_nltk no_lemmas ["service"; "bad"] []) (Str "")
  = Ok [] /\
  tokenize (sample_nltk no_lemmas ["service"; "bad"] []) None_
  = Raise (TypeError "expected string or bytes-like object").
Proof.
  apply tokenize_empty_and_null. reflexivity.
Defined.

Lemma tokenize_example_witness :
  tokenize (sample_nltk no_lemmas ["service"; "bad"] ["this"; "is"; "so"])
           (Str "This service is SO bad!!! 123")
  = Ok ["service"; "bad"].
Proof.
  apply tokenize_example;
    try reflexivity; simpl; intuition discriminate.
Defined.

Lemma renormalizing_a_short_lemma_loses_it :
  tokenize (sample_nltk [("us", "u")] ["us"; "u"] []) (Str "us")
  = Ok ["u"] /\
  (forall t, In t ["u"] ->
     In t (ENGLISH_VOCABULARY (sample_nltk [("us", "u")] ["us"; "u"] [])) /\
     ~ In t (STOP_WORDS_ENG (sample_nltk [("us", "u")] ["us"; "u"] []))) /\
  tokenize (sample_nltk [("us", "u")] ["us"; "u"] [])
           (Str (join " " ["u"]))
  = Ok [].
Proof.
  split; [reflexivity|]. split; [|reflexivity].
  intros t [<- | []]. simpl. intuition discriminate.
Qed.

Lemma tokenize_idempotent_witness :
  tokenize (sample_nltk [("services", "service")]
                        ["services"; "service"; "bad"; "is"] ["is"])
           (Str (join " " ["service"; "bad"]))
  = Ok ["service"; "bad"].
Proof.
  apply (tokenize_idempotent
           (sample_nltk [("services", "service")]
                        ["services"; "service"; "bad"; "is"] ["is"])
           "The services: is BAD, bad!").
  - reflexivity.
  - intros t [<- | [<- | []]]; simpl; intuition (discriminate || lia).
  - reflexivity.
Defined.

(** ** Sorting and ranking *)

Section SortingFacts.

Context {A : Type} (leb : A -> A -> bool).

Local Notation "x <<= y" := (leb x y = true) (at level 70).

Lemma insert_sorted_perm (x : A) (l : list A) :
  Permutation (insert_sorted leb x l) (x :: l).
Proof.
  induction l as [|y l IH]; simpl; [reflexivity|].
  destruct (leb x y); [reflexivity|].
  rewrite IH. apply perm_swap.
Qed.

Lemma sort_perm (l : list A) : Permutation (sort leb l) l.
Proof.
  induction l as [|x l IH]; simpl; [reflexivity|].
  now rewrite insert_sorted_perm, IH.
Qed.

Hypothesis leb_total : forall x y, leb x y = false -> y <<= x.
Hypothesis leb_trans : forall x y z, x <<= y -> y <<= z -> x <<= z.

Lemma insert_sorted_sorted (x : A) (l : list A) :
  StronglySorted (fun a b => a <<= b) l ->
  StronglySorted (fun a b => a <<= b) (insert_sorted leb x l).
Proof.
  induction 1 as [|y l Hl IH Hy]; simpl.
  - constructor; constructor.
  - destruct (leb x y) eqn:E.
    + constructor; [now constructor|].
      constructor; [assumption|].
      eapply Forall_impl; [|exact Hy]. intros z Hz. now apply (leb_trans x y z).
    + constructor; [assumption|].
      apply Forall_forall. intros z Hz.
      apply (Permutation_in _ (insert_sorted_perm x l)) in Hz.
      destruct Hz as [<- | Hz]; [now apply leb_total|].
      rewrite Forall_forall in Hy. now apply Hy.
Qed.

Lemma sort_sorted (l : list A) :
  StronglySorted (fun a b => a <<= b) (sort leb l).
Proof.
  induction l as [|x l IH]; simpl; [constructor|].
  now apply insert_sorted_sorted.
Qed.

End SortingFacts.

Section StronglySortedFacts.

Context {A : Type} (R : A -> A -> Prop).

Lemma StronglySorted_app_inv (l1 l2 : list A) :
  StronglySorted R (l1 ++ l2) ->
  StronglySorted R l1 /\ StronglySorted R l2 /\
  (forall x y, In x l1 -> In y l2 -> R x y).
Proof.
  induction l1 as [|a l1 IH]; simpl; intros H.
  - repeat split; [constructor | assumption | intros x y []].
  - inversion H as [|? ? Hs Ha]; subst.
    destruct (IH Hs) as (H1 & H2 & H12).
    rewrite Forall_app in Ha. destruct Ha as [Ha1 Ha2].
    repeat split; [now constructor | assumption |].
    intros x y [<- | Hx] Hy; [|now apply H12].
    rewrite Forall_forall in Ha2. now apply Ha2.
Qed.

Lemma StronglySorted_app (l1 l2 : list A) :
  StronglySorted R l1 -> StronglySorted R l2 ->
  (forall x y, In x l1 -> In y l2 -> R x y) ->
  StronglySorted R (l1 ++ l2).
Proof.
  induction 1 as [|a l1 Hs IH Ha]; simpl; intros H2 H12; [assumption|].
  constructor.
  - apply IH; [assumption|]. intros x y Hx Hy. apply H12; [now right | assumption].
  - apply Forall_app. split; [assumption|].
    apply Forall_forall. intros y Hy. apply H12; [now left | assumption].
Qed.

Lemma StronglySorted_firstn (n : nat) (l : list A) :
  StronglySorted R l -> StronglySorted R (firstn n l).
Proof.
  intros H. rewrite <- (firstn_skipn n l) in H.
  now apply StronglySorted_app_inv in H.
Qed.

End StronglySortedFacts.

Lemma StronglySorted_rev {A : Type} (R : A -> A -> Prop) (l : list A) :
  StronglySorted R l -> StronglySorted (fun x y => R y x) (rev l).
Proof.
  induction 1 as [|a l Hs IH Ha]; simpl; [constructor|].
  apply StronglySorted_app; [assumption | constructor; constructor |].
  intros x y Hx [<- | []]. apply in_rev in Hx.
  rewrite Forall_forall in Ha. now apply Ha.
Qed.

(** ** [argsort] and the top words of a topic *)

Lemma weight_leb_total (a b : nat * Q) :
  weight_leb a b = false -> weight_leb b a = true.
Proof.
  unfold weight_leb. intros H. apply Qle_bool_iff.
  destruct (Qlt_le_dec (snd a) (snd b)) as [Hlt | Hle]; [|assumption].
  apply Qlt_le_weak, Qle_bool_iff in Hlt. congruence.
Qed.

Lemma weight_leb_trans (a b c : nat * Q) :
  weight_leb a b = true -> weight_leb b c = true -> weight_leb a c = true.
Proof.
  unfold weight_leb. rewrite !Qle_bool_iff. apply Qle_trans.
Qed.

Lemma enumerate_from_In {A : Type} (d : A) (xs : list A) (s i : nat) (x : A) :
  In (i, x) (combine (seq s (length xs)) xs) ->
  s <= i < s + length xs /\ x = nth (i - s) xs d.
Proof.
  revert s. induction xs as [|y xs IH]; simpl; intros s; [intros []|].
  intros [[= <- <-] | H].
  - split; [lia|]. now rewrite Nat.sub_diag.
  - apply IH in H. destruct H as [Hi ->]. split; [lia|].
    replace (i - s) with (S (i - S s)) by lia. reflexivity.
Qed.

Lemma enumerate_In (component : list Q) (i : nat) (w : Q) :
  In (i, w) (enumerate component) -> i < length component /\ w = weight component i.
Proof.
  intros H. apply (enumerate_from_In 0%Q) in H.
  rewrite Nat.sub_0_r in H. destruct H as [Hi ->]. split; [lia | reflexivity].
Qed.

Lemma map_fst_enumerate {A : Type} (xs : list A) :
  map fst (enumerate xs) = seq 0 (length xs).
Proof.
  unfold enumerate. generalize 0. induction xs as [|x xs IH]; simpl; intros s.
  - reflexivity.
  - now rewrite IH.
Qed.

Lemma argsort_perm (component : list Q) :
  Permutation (argsort component) (seq 0 (length component)).
Proof.
  unfold argsort. rewrite <- map_fst_enumerate.
  apply Permutation_map, sort_perm.
Qed.

Lemma argsort_ascending (component : list Q) :
  StronglySorted (fun i j => (weight component i <= weight component j)%Q)
                 (argsort component).
Proof.
  unfold argsort.
  pose proof (sort_sorted weight_leb weight_leb_total weight_leb_trans
                          (enumerate component)) as Hs.
  assert (Hin : forall a, In a (sort weight_leb (enumerate component)) ->
                          snd a = weight component (fst a)).
  { intros [i w] H. apply (Permutation_in _ (sort_perm weight_leb _)) in H.
    now apply enumerate_In in H. }
  induction Hs as [|a l Hl IH Ha]; simpl; [constructor|].
  constructor.
  - apply IH. intros b Hb. apply Hin. now right.
  - apply Forall_forall. intros j Hj. apply in_map_iff in Hj.
    destruct Hj as [b [<- Hb]].
    rewrite Forall_forall in Ha. specialize (Ha b Hb).
    unfold weight_leb in Ha. apply Qle_bool_iff in Ha.
    rewrite <- (Hin a (or_introl eq_refl)), <- (Hin b (or_intror Hb)). exact Ha.
Qed.

Lemma slice_to_firstn {A : Type} (n : Z) (xs : list A) :
  exists m, slice_to n xs = firstn m xs /\ ((0 <= n)%Z -> m = Z.to_nat n).
Proof.
  unfold slice_to. destruct (0 <=? n)%Z eqn:E.
  - exists (Z.to_nat n). now split.
  - exists (length xs - Z.to_nat (- n)). split; [reflexivity|]. lia.
Qed.

(** The top words of a topic are distinct columns of the topic, by
    descending weight, and no column left out weighs more than one of them. *)
Lemma top_word_idx_spec (n : Z) (component : list Q) :
  NoDup (top_word_idx n component) /\
  (forall i, In i (top_word_idx n component) -> i < length component) /\
  descending component (top_word_idx n component) /\
  top_ranked component (top_word_idx n component) /\
  ((0 <= n)%Z ->
   length (top_word_idx n component) = Nat.min (Z.to_nat n) (length component)).
Proof.
  unfold top_word_idx.
  destruct (slice_to_firstn n (rev (argsort component))) as [m [-> Hm]].
  set (ranked := rev (argsort component)).
  assert (Hperm : Permutation ranked (seq 0 (length component))).
  { unfold ranked. rewrite <- Permutation_rev. apply argsort_perm. }
  assert (Hdesc : descending component ranked).
  { unfold descending, ranked.
    apply (StronglySorted_rev _ _ (argsort_ascending component)). }
  assert (Hnodup : NoDup ranked).
  { apply (Permutation_NoDup (Permutation_sym Hperm)), seq_NoDup. }
  pose proof (firstn_skipn m ranked) as Hsplit.
  repeat split.
  - rewrite <- Hsplit in Hnodup. now apply NoDup_app_remove_r in Hnodup.
  - intros i Hi.
    assert (Hir : In i ranked).
    { rewrite <- Hsplit. apply in_or_app. now left. }
    apply (Permutation_in _ Hperm), in_seq in Hir. lia.
  - now apply StronglySorted_firstn.
  - intros i j Hi Hj Hout.
    assert (Hjr : In j ranked).
    { apply (Permutation_in _ (Permutation_sym Hperm)), in_seq. lia. }
    rewrite <- Hsplit in Hjr. apply in_app_or in Hjr.
    destruct Hjr as [Hjr | Hjr]; [contradiction|].
    unfold descending in Hdesc. rewrite <- Hsplit in Hdesc.
    apply StronglySorted_app_inv in Hdesc.
    destruct Hdesc as (_ & _ & H12). now apply H12.
  - intros Hn. rewrite (Hm Hn), length_firstn.
    now rewrite (Permutation_length Hperm), length_seq.
Qed.

(** ** The report *)

Lemma comprehension_total {A B : Type} (f : A -> result B) (g : A -> B) (xs : list A) :
  (forall x, In x xs -> f x = Ok (g x)) -> comprehension f xs = Ok (map g xs).
Proof.
  induction xs as [|x xs IH]; simpl; intros H; [reflexivity|].
  rewrite (H x (or_introl eq_refl)). simpl.
  rewrite IH by (intros y Hy; apply H; now right). reflexivity.
Qed.

Lemma comprehension_getitem (vocab : list string) (idx : list nat) :
  (forall i, In i idx -> i < length vocab) ->
  comprehension (getitem vocab) idx = Ok (map (fun i => nth i vocab "") idx).
Proof.
  intros H. apply comprehension_total. intros i Hi. unfold getitem.
  destruct (nth_error vocab i) as [w|] eqn:E.
  - now rewrite (nth_error_nth _ _ _ E).
  - apply nth_error_None in E. specialize (H i Hi). lia.
Qed.

Lemma setitem_fresh {V : Type} (d : list (nat * V)) (k : nat) (v : V) :
  ~ In k (map fst d) -> setitem d k v = d ++ [(k, v)].
Proof.
  induction d as [|[k' v'] d IH]; simpl; intros H; [reflexivity|].
  destruct (Nat.eqb_spec k' k) as [-> | Hne]; [tauto|].
  rewrite IH; [reflexivity | tauto].
Qed.

(** The words [display_topics] stores for one topic. *)
Lemma collect_topic_words_from (n : Z) (vocab : list string)
  (components : list (list Q)) (s : nat) (acc : list (nat * list string)) :
  Forall (fun row => length row <= length vocab) components ->
  (forall k, In k (map fst acc) -> k < s) ->
  for_each
    (fun topic_words entry =>
       words <- comprehension (getitem vocab) (top_word_idx n (snd entry)) ;;
       Ok (setitem topic_words (fst entry) words))
    (combine (seq s (length components)) components) acc
  = Ok (acc ++
        map (fun entry =>
               (fst entry,
                map (fun i => nth i vocab "") (top_word_idx n (snd entry))))
            (combine (seq s (length components)) components)).
Proof.
  intros Hrows. revert s acc.
  induction Hrows as [|row components Hrow Hrows IH]; simpl; intros s acc Hacc.
  - now rewrite app_nil_r.
  - rewrite comprehension_getitem.
    2:{ intros i Hi. apply (top_word_idx_spec n row) in Hi. lia. }
    simpl. rewrite setitem_fresh.
    2:{ intros H. apply Hacc in H. lia. }
    rewrite IH.
    + now rewrite <- app_assoc.
    + intros k Hk. rewrite map_app, in_app_iff in Hk. simpl in Hk.
      destruct Hk as [Hk | [<- | []]]; [apply Hacc in Hk|]; lia.
Qed.

Lemma collect_topic_words_ok (n : Z) (vocab : list string)
  (components : list (list Q)) :
  Forall (fun row => length row <= length vocab) components ->
  collect_topic_words n vocab components
  = Ok (map (fun entry =>
               (fst entry,
                map (fun i => nth i vocab "") (top_word_idx n (snd entry))))
            (enumerate components)).
Proof.
  intros Hrows. unfold collect_topic_words, enumerate.
  now rewrite (collect_topic_words_from n vocab components 0 [] Hrows).
Qed.

Lemma print_topic_words_heading (topic_words : list (nat * list string)) (s t : nat) :
  map fst topic_words = seq s (length topic_words) ->
  t < length topic_words ->
  nth_error (print_topic_words topic_words) (2 * t)
  = Some ("Topic: " ++ str (s + t + 1))%string.
Proof.
  revert s t. induction topic_words as [|[k ws] tw IH]; intros s t Hkeys Ht;
    cbn [length map fst seq] in Hkeys, Ht.
  - lia.
  - injection Hkeys as -> Hkeys.
    change (print_topic_words ((s, ws) :: tw))
      with (("Topic: " ++ str (s + 1))%string
            :: ("Words:  " ++ join ", " ws)%string :: print_topic_words tw).
    destruct t as [|t].
    + change (2 * 0) with 0. cbn [nth_error]. now rewrite Nat.add_0_r.
    + replace (2 * S t) with (S (S (2 * t))) by lia.
      cbn [nth_error]. rewrite (IH (S s) t Hkeys) by lia.
      do 3 f_equal. lia.
Qed.

(** ** The vectorizer *)

Lemma add_features_In (doc vocabulary : list string) (term : string) :
  In term (fold_left add_feature doc vocabulary) <-> In term vocabulary \/ In term doc.
Proof.
  revert vocabulary. induction doc as [|w doc IH]; simpl; intros vocabulary.
  - tauto.
  - rewrite IH. unfold add_feature.
    destruct (contains vocabulary w) eqn:E.
    + apply contains_In in E. split; [tauto|].
      intros [H | [<- | H]]; tauto.
    + rewrite in_app_iff. simpl. tauto.
Qed.

Lemma count_vocab_from_In (analysed : list (list string)) (vocabulary : list string)
  (term : string) :
  In term (fold_left (fun vocabulary doc => fold_left add_feature doc vocabulary)
                     analysed vocabulary)
  <-> In term vocabulary \/ exists doc, In doc analysed /\ In term doc.
Proof.
  revert vocabulary. induction analysed as [|doc analysed IH]; simpl; intros vocabulary.
  - split; [tauto | intros [H | [doc [[] _]]]; exact H].
  - rewrite IH, add_features_In. split.
    + intros [[H | H] | [doc' [H1 H2]]]; [tauto | right; exists doc; tauto |].
      right. exists doc'. tauto.
    + intros [H | [doc' [[<- | H1] H2]]]; [tauto | tauto |].
      right. exists doc'. tauto.
Qed.

Lemma count_vocab_In (analysed : list (list string)) (term : string) :
  In term (count_vocab analysed) <-> exists doc, In doc analysed /\ In term doc.
Proof.
  unfold count_vocab. rewrite count_vocab_from_In. simpl. tauto.
Qed.

Lemma count_vocab_nil (analysed : list (list string)) :
  count_vocab analysed = [] <-> forall doc, In doc analysed -> doc = [].
Proof.
  split.
  - intros E doc Hdoc. destruct doc as [|term doc]; [reflexivity|].
    assert (H : In term (count_vocab analysed)).
    { apply count_vocab_In. exists (term :: doc). split; [assumption | now left]. }
    rewrite E in H. destruct H.
  - intros H. destruct (count_vocab analysed) as [|term vocabulary] eqn:E;
      [reflexivity|].
    assert (Hin : In term (count_vocab analysed)) by (rewrite E; now left).
    apply count_vocab_In in Hin. destruct Hin as [doc [Hdoc Hterm]].
    rewrite (H doc Hdoc) in Hterm. destruct Hterm.
Qed.

Lemma sort_In {A : Type} (leb : A -> A -> bool) (l : list A) (x : A) :
  In x (sort leb l) <-> In x l.
Proof.
  split; apply Permutation_in; [|symmetry]; apply sort_perm.
Qed.

Lemma sort_length {A : Type} (leb : A -> A -> bool) (l : list A) :
  length (sort leb l) = length l.
Proof. apply Permutation_length, sort_perm. Qed.

Lemma Forall2_enumerate_from {A B : Type} (P : A -> B -> Prop) (f : nat * A -> B)
  (xs : list A) (s : nat) :
  (forall i x, In x xs -> P x (f (i, x))) ->
  Forall2 P xs (map f (combine (seq s (length xs)) xs)).
Proof.
  revert s. induction xs as [|x xs IH]; simpl; intros s H; constructor.
  - apply H. now left.
  - apply IH. intros i y Hy. apply H. now right.
Qed.

(** ** The notebook *)

Section NotebookFacts.

Variable nltk : Nltk.
Variable lda_components : list (list nat) -> Z -> Z -> list (list Q).

Local Notation "'normalized'" :=
  (fun doc => tokens_of nltk (lower doc)).
Local Notation "'features_of'" :=
  (corpus_features nltk).
Local Notation "'counts_of'" :=
  (corpus_counts nltk).
Local Notation "'model_of'" :=
  (make_model nltk).
Local Notation "'extract'" :=
  (topic_extractor nltk lda_components).

Lemma corpus_features_In (comments : list string) (term : string) :
  In term (features_of comments) <->
  exists doc, In doc comments /\ In term (normalized doc).
Proof.
  unfold corpus_features. rewrite sort_In, count_vocab_In. split.
  - intros [toks [Hin Hterm]]. apply in_map_iff in Hin.
    destruct Hin as [doc [<- Hdoc]]. now exists doc.
  - intros [doc [Hdoc Hterm]]. exists (normalized doc). split; [|assumption].
    apply in_map_iff. now exists doc.
Qed.

Lemma corpus_features_nil (comments : list string) :
  features_of comments = [] <->
  forall doc, In doc comments -> normalized doc = [].
Proof.
  unfold corpus_features. split.
  - intros E doc Hdoc.
    apply (f_equal (@length string)) in E. rewrite sort_length in E.
    apply length_zero_iff_nil in E.
    apply (proj1 (count_vocab_nil _) E). apply in_map_iff. now exists doc.
  - intros H.
    assert (E : count_vocab (map normalized comments) = []).
    { apply count_vocab_nil. intros toks Hin. apply in_map_iff in Hin.
      destruct Hin as [doc [<- Hdoc]]. now apply H. }
    now rewrite E.
Qed.

(** Fitting the vectorizer of the notebook's pipeline. *)
Lemma vectorizer_fit_transform_model (comments : list string) (k seed : Z) :
  vectorizer_fit_transform (tfidfvectorizer (model_of k seed)) comments =
  match features_of comments with
  | [] =>
      Raise (ValueError
               "empty vocabulary; perhaps the documents only contain stop words")
  | _ :: _ =>
      Ok ({| tokenizer := tokenize nltk;
             lowercase := true;
             vocabulary_ := Some (features_of comments) |},
          counts_of comments)
  end.
Proof.
  unfold vectorizer_fit_transform.
  rewrite (comprehension_total _ normalized) by reflexivity.
  cbn [bind]. unfold corpus_counts, corpus_features.
  destruct (count_vocab (map normalized comments)) as [|term vocabulary] eqn:E.
  - reflexivity.
  - destruct (sort String.leb (term :: vocabulary)) as [|f fs] eqn:Es;
      [|reflexivity].
    apply (f_equal (@length string)) in Es. rewrite sort_length in Es.
    discriminate Es.
Qed.

(** The three ways the notebook can go. *)
Lemma topic_extractor_cases (comments : list string) (k n seed : Z) :
  extract comments k n seed =
  match features_of comments with
  | [] =>
      Raise (ValueError
               "empty vocabulary; perhaps the documents only contain stop words")
  | _ :: _ =>
      if (k <=? 0)%Z
      then Raise (ValueError ("Invalid 'n_components' parameter: " ++ repr k)%string)
      else
        topic_words <-
          collect_topic_words n (features_of comments)
                              (lda_components (counts_of comments) k seed) ;;
        Ok (print_topic_words topic_words)
  end.
Proof.
  unfold topic_extractor, fit_transform.
  rewrite vectorizer_fit_transform_model.
  destruct (features_of comments) as [|f fs]; [reflexivity|].
  cbn [bind snd fst]. unfold lda_fit.
  cbn [make_model latentdirichletallocation n_components].
  destruct (k <=? 0)%Z; reflexivity.
Qed.

(** C9 (as amended): the feature names of the fitted vectorizer, which label
    the columns of the term-document matrix, are exactly the tokens the
    normalizer returns on the lower-cased comments: the vectorizer lower-cases
    a comment before it calls the tokenizer.  A term that the normalizer
    returns for no lower-cased comment is not a column. *)
Theorem feature_names_are_tokens_of_lower_cased_comments
  (comments : list string) (k seed : Z) (model : Pipeline) :
  fit_transform lda_components (make_model nltk k seed) comments = Ok model ->
  exists features,
    get_feature_names (tfidfvectorizer model) = Ok features /\
    forall term,
      In term features <->
      exists doc, In doc comments /\ In term (tokens_of nltk (lower doc)).
Proof.
  unfold fit_transform. rewrite vectorizer_fit_transform_model.
  destruct (features_of comments) as [|f fs] eqn:E; [discriminate|].
  cbn [bind snd fst]. unfold lda_fit.
  destruct (_ <=? 0)%Z; [discriminate|].
  cbn [bind]. intros [= <-].
  exists (features_of comments). split.
  - unfold get_feature_names. cbn. now rewrite E.
  - intros term. apply corpus_features_In.
Qed.

(** C3 (as amended): the topic extractor raises a [ValueError] when the
    collection is empty, when every comment, lower-cased as the vectorizer
    hands it to the tokenizer, normalizes to no token, and when the topic
    count is zero or negative.  In every other case it prints a
    report, provided each topic has as many weights as there are feature
    names: a topic count above the number of distinct terms is not an error,
    and a top-word count above it is cut to the terms there are. *)
Theorem topic_extractor_raises_exactly_when (comments : list string) (k n seed : Z) :
  ((comments = [] \/
    (forall doc, In doc comments -> tokens_of nltk (lower doc) = []) \/
    (k <= 0)%Z) ->
   exists msg,
     topic_extractor nltk lda_components comments k n seed
     = Raise (ValueError msg))
  /\
  (~ (comments = [] \/
      (forall doc, In doc comments -> tokens_of nltk (lower doc) = []) \/
      (k <= 0)%Z) ->
   Forall (fun component =>
             length component = length (corpus_features nltk comments))
          (lda_components (corpus_counts nltk comments) k seed) ->
   exists topic_words,
     topic_extractor nltk lda_components comments k n seed
     = Ok (print_topic_words topic_words) /\
     length topic_words
     = length (lda_components (corpus_counts nltk comments) k seed) /\
     ((0 <= n)%Z ->
      Forall (fun entry =>
                length (snd entry)
                = Nat.min (Z.to_nat n) (length (corpus_features nltk comments)))
             topic_words)).
Proof.
  rewrite topic_extractor_cases. split.
  - intros Hcond.
    destruct (features_of comments) as [|f fs] eqn:E; [eauto|].
    destruct (Z.leb_spec k 0) as [Hk | Hk]; [eauto|].
    exfalso. destruct Hcond as [-> | [Hall | Hle]]; [discriminate E | | lia].
    apply corpus_features_nil in Hall. congruence.
  - intros Hcond Hshape.
    destruct (features_of comments) as [|f fs] eqn:E.
    { exfalso. apply Hcond. right. left. now apply corpus_features_nil. }
    destruct (Z.leb_spec k 0) as [Hk | Hk]; [tauto|].
    rewrite <- E in *. rewrite collect_topic_words_ok.
    2:{ eapply Forall_impl; [|exact Hshape]. intros row ->. apply le_n. }
    eexists. split; [reflexivity|]. split.
    + unfold enumerate. rewrite length_map, length_combine, length_seq. lia.
    + intros Hn. apply Forall_forall. intros entry Hentry.
      apply in_map_iff in Hentry. destruct Hentry as [[t row] [<- Hin]].
      apply in_combine_r in Hin. rewrite Forall_forall in Hshape.
      cbn [snd]. rewrite length_map.
      destruct (top_word_idx_spec n row) as (_ & _ & _ & _ & Hlen).
      now rewrite (Hlen Hn), (Hshape row Hin).
Qed.

End NotebookFacts.

(** C10: the report of [display_topics] is the same for any two values of
    its [model_pipeline] argument, of whatever type; what it prints changes
    with the global [model], whose topic weights it reads. *)
Theorem display_topics_ignores_model_pipeline :
  (forall (model : Pipeline) (T U : Type) (mp1 : T) (mp2 : U)
          (number_of_top_words : Z) (vocab : list string),
     display_topics model number_of_top_words mp1 vocab
     = display_topics model number_of_top_words mp2 vocab)
  /\
  (exists (model1 model2 : Pipeline) (vocab : list string),
     display_topics model1 1 model1 vocab <> display_topics model2 1 model1 vocab).
Proof.
  split; [reflexivity|].
  pose (vectorizer :=
          {| tokenizer := tokenize (sample_nltk no_lemmas [] []);
             lowercase := true;
             vocabulary_ := Some ["bad"; "slow"] |}).
  pose (lda := fun weights =>
          {| n_components := 1; n_jobs := -1; random_state := 42;
             components_ := Some [weights] |}).
  exists {| tfidfvectorizer := vectorizer;
            latentdirichletallocation := lda [2 # 1; 1 # 1]%Q |},
         {| tfidfvectorizer := vectorizer;
            latentdirichletallocation := lda [1 # 1; 2 # 1]%Q |},
         ["bad"; "slow"].
  vm_compute. discriminate.
Qed.

(** *** The notebook on small collections *)

Lemma capitalised_comment_gives_a_column_the_normalizer_does_not :
  exists model,
    fit_transform sample_lda
      (make_model (sample_nltk no_lemmas ["service"] []) 3 42)
      ["Service"]
    = Ok model /\
    get_feature_names (tfidfvectorizer model) = Ok ["service"] /\
    tokenize (sample_nltk no_lemmas ["service"] []) (Str "Service")
    = Ok [].
Proof.
  eexists. split; [reflexivity|]. split; reflexivity.
Qed.

Lemma feature_names_are_tokens_of_lower_cased_comments_witness :
  exists model,
    fit_transform sample_lda
      (make_model (sample_nltk no_lemmas ["bad"; "service"; "slow"] ["is"]) 3 42)
      ["Bad service"; "service is SLOW"]
    = Ok model /\
    exists features,
      get_feature_names (tfidfvectorizer model) = Ok features /\
      forall term,
        In term features <->
        exists doc,
          In doc ["Bad service"; "service is SLOW"] /\
          In term
             (tokens_of (sample_nltk no_lemmas ["bad"; "service"; "slow"] ["is"])
                        (lower doc)).
Proof.
  eexists. split; [reflexivity|].
  apply (feature_names_are_tokens_of_lower_cased_comments
           (sample_nltk no_lemmas ["bad"; "service"; "slow"] ["is"]) sample_lda
           ["Bad service"; "service is SLOW"] 3 42).
  reflexivity.
Defined.

Lemma more_topics_than_terms_is_reported :
  topic_extractor (sample_nltk no_lemmas ["bad"; "service"] [])
                  sample_lda ["bad service"] 3 5 42
  = Ok ["Topic: 1"; "Words:  service, bad";
        "Topic: 2"; "Words:  service, bad";
        "Topic: 3"; "Words:  bad, service"].
Proof. reflexivity. Qed.

Lemma topic_extractor_raises_exactly_when_witness :
  (exists msg,
     topic_extractor (sample_nltk no_lemmas ["bad"; "service"] [])
                     sample_lda ["bad service"] 0 5 42
     = Raise (ValueError msg)) /\
  (exists topic_words,
     topic_extractor (sample_nltk no_lemmas ["bad"; "service"] [])
                     sample_lda ["bad service"] 3 5 42
     = Ok (print_topic_words topic_words) /\
     length topic_words = 3 /\
     Forall (fun entry => length (snd entry) = 2) topic_words).
Proof.
  split.
  - apply (topic_extractor_raises_exactly_when
             (sample_nltk no_lemmas ["bad"; "service"] [])
             sample_lda ["bad service"] 0 5 42).
    right. right. lia.
  - destruct (proj2 (topic_extractor_raises_exactly_when
                       (sample_nltk no_lemmas ["bad"; "service"] [])
                       sample_lda ["bad service"] 3 5 42))
      as [topic_words (Hrun & Hlen & Hwords)].
    + intros [H | [H | H]]; [discriminate H | | lia].
      specialize (H "bad service" (or_introl eq_refl)). discriminate H.
    + repeat constructor.
    + exists topic_words. split; [exact Hrun|]. split; [exact Hlen|].
      apply Hwords. lia.
Defined.

(** * Further properties *)

(** ** Loading the comments *)

Lemma map_snd_combine_seq {A : Type} (xs : list A) (s : nat) :
  map snd (combine (map Z.of_nat (seq s (length xs))) xs) = xs.
Proof.
  revert s. induction xs as [|x xs IH]; simpl; intros s; [reflexivity|].
  now rewrite IH.
Qed.

Lemma map_fst_combine_seq {A : Type} (xs : list A) (s : nat) :
  map fst (combine (map Z.of_nat (seq s (length xs))) xs)
  = map Z.of_nat (seq s (length xs)).
Proof.
  revert s. induction xs as [|x xs IH]; simpl; intros s; [reflexivity|].
  now rewrite IH.
Qed.

Lemma reset_index_values {A : Type} (df : Load.frame A) :
  map snd (Load.reset_index df) = map snd df.
Proof.
  unfold Load.reset_index.
  rewrite <- (length_map snd df). apply map_snd_combine_seq.
Qed.

Lemma reset_index_length {A : Type} (df : Load.frame A) :
  length (Load.reset_index df) = length df.
Proof.
  unfold Load.reset_index.
  now rewrite length_combine, !length_map, length_seq, Nat.min_id.
Qed.

Lemma reset_index_labels {A : Type} (df : Load.frame A) :
  map fst (Load.reset_index df) = map Z.of_nat (seq 0 (length df)).
Proof.
  unfold Load.reset_index.
  rewrite <- (length_map snd df) at 1. rewrite map_fst_combine_seq.
  now rewrite length_map.
Qed.

Lemma bad_comments_step (row : Z * Load.ticket) (df : Load.frame Load.ticket) :
  map snd
    (Load.boolean_mask (fun c => negb (Load.isin ["N / A"] (Str c)))
       (Load.dropna
          (Load.comment_frame
             (Load.boolean_mask (fun t => Load.isin ["Bad"] (Load.satisfaction t))
                                (row :: df)))))
  = usable_comment (snd row) ++
    map snd
      (Load.boolean_mask (fun c => negb (Load.isin ["N / A"] (Str c)))
         (Load.dropna
            (Load.comment_frame
               (Load.boolean_mask (fun t => Load.isin ["Bad"] (Load.satisfaction t))
                                  df)))).
Proof.
  destruct row as [label [[|rating] c]]; [reflexivity|].
  unfold Load.boolean_mask, Load.comment_frame, usable_comment, contains.
  simpl. rewrite orb_false_r.
  destruct (String.eqb rating "Bad"); simpl; [|now destruct c].
  destruct c as [|c]; simpl; [reflexivity|].
  rewrite orb_false_r. now destruct (String.eqb c "N / A").
Qed.

Lemma comments_values (df : Load.frame Load.ticket) :
  map snd (Load.comments df) = flat_map (fun row => usable_comment (snd row)) df.
Proof.
  unfold Load.comments. rewrite reset_index_values.
  induction df as [|row df IH]; [reflexivity|].
  rewrite bad_comments_step, IH. reflexivity.
Qed.

(** X1: the comments handed to the pipeline are, in the order of the table
    and as often as they occur, the comments of the tickets rated exactly
    [Bad] that are neither missing nor the literal [N / A]; they are
    relabelled 0, 1, 2, ... whatever the labels of the table. *)
Theorem comments_are_the_usable_bad_comments (df : Load.frame Load.ticket) :
  map snd (Load.comments df) = flat_map (fun row => usable_comment (snd row)) df /\
  map fst (Load.comments df)
  = map Z.of_nat (seq 0 (length (flat_map (fun row => usable_comment (snd row)) df))).
Proof.
  split; [apply comments_values|].
  rewrite <- comments_values, length_map.
  unfold Load.comments. rewrite reset_index_labels, reset_index_length.
  reflexivity.
Qed.

(** ** The text normalizer, continued *)

Lemma blank_non_alnum_idem (text : string) :
  blank_non_alnum (blank_non_alnum text) = blank_non_alnum text.
Proof. apply blank_non_alnum_id, blank_non_alnum_chars. Qed.

(** X2: punctuation never matters to the normalizer: a text and the text
    with every character other than a letter or digit blanked give the same
    tokens. *)
Theorem tokenize_ignores_punctuation (nltk : Nltk) (text : string) :
  tokenize nltk (Str (blank_non_alnum text)) = tokenize nltk (Str text).
Proof.
  rewrite !tokenize_Str. now rewrite blank_non_alnum_idem.
Qed.

(** X3: the normalizer returns no token exactly when no token of the cleaned
    text is at once in the vocabulary, longer than one character and outside
    the stop-word list. *)
Theorem tokenize_empty_iff (nltk : Nltk) (text : string) :
  tokenize nltk (Str text) = Ok [] <->
  forall token,
    In token (word_tokenize nltk (blank_non_alnum text)) ->
    ~ (In token (ENGLISH_VOCABULARY nltk) /\
       1 < String.length token /\
       ~ In token (STOP_WORDS_ENG nltk)).
Proof.
  split.
  - intros Hout token Hin (Hvoc & Hlen & Hstop).
    apply (proj2 (tokenize_In nltk text [] (lemmatize nltk (lower (strip token))) Hout)).
    exists token. repeat split; assumption.
  - intros Hnone. rewrite tokenize_tokens_of. f_equal.
    destruct (tokens_of nltk text) as [|e out] eqn:E; [reflexivity|].
    exfalso.
    assert (He : In e (e :: out)) by now left.
    apply (tokenize_In nltk text (e :: out) e) in He.
    + destruct He as [token (Hin & Hvoc & Hlen & Hstop & _)].
      now apply (Hnone token Hin).
    + now rewrite tokenize_tokens_of, E.
Qed.

(** ** The notebook from the table to the report *)

(** X4: when every comment that reaches the pipeline, lower-cased as the
    vectorizer hands it to the tokenizer, normalizes to no token, in
    particular when no ticket is rated [Bad], the notebook stops with the
    vectorizer's [ValueError] and prints no report. *)
Theorem notebook_without_usable_tokens
  (nltk : Nltk) (lda_components : list (list nat) -> Z -> Z -> list (list Q))
  (df : Load.frame Load.ticket) :
  (forall row c, In row df -> In c (usable_comment (snd row)) ->
                 tokens_of nltk (lower c) = []) ->
  notebook nltk lda_components df
  = Raise (ValueError
             "empty vocabulary; perhaps the documents only contain stop words").
Proof.
  intros Hnone. unfold notebook. rewrite topic_extractor_cases.
  rewrite comments_values.
  replace (corpus_features nltk (flat_map (fun row => usable_comment (snd row)) df))
    with (@nil string); [reflexivity|].
  symmetry. apply corpus_features_nil. intros c Hc.
  apply in_flat_map in Hc. destruct Hc as [row [Hrow Hc]].
  now apply (Hnone row c).
Qed.

Lemma notebook_without_usable_tokens_witness :
  notebook complaints_nltk sample_lda
    [ (1, {| Load.satisfaction := Str "Good"; Load.comment := Str "bad service" |});
      (2, {| Load.satisfaction := Str "Bad"; Load.comment := Str "N / A" |});
      (3, {| Load.satisfaction := Str "Bad"; Load.comment := Str "zzz 42 !" |}) ]%Z
  = Raise (ValueError
             "empty vocabulary; perhaps the documents only contain stop words").
Proof.
  apply notebook_without_usable_tokens.
  intros row c Hrow Hc.
  repeat (destruct Hrow as [<- | Hrow]); simpl in Hc;
    try contradiction; destruct Hc as [<- | []]; reflexivity.
Defined.

(** ** The feature names *)

Lemma ascii_compare_lt_trans (a b c : ascii) :
  Ascii.compare a b = Lt -> Ascii.compare b c = Lt -> Ascii.compare a c = Lt.
Proof.
  unfold Ascii.compare. rewrite !N.compare_lt_iff. apply N.lt_trans.
Qed.

Lemma string_compare_lt_trans (s1 s2 s3 : string) :
  String.compare s1 s2 = Lt -> String.compare s2 s3 = Lt ->
  String.compare s1 s3 = Lt.
Proof.
  revert s2 s3. induction s1 as [|a s1 IH]; intros [|b s2] [|c s3]; simpl;
    try discriminate; try reflexivity.
  destruct (Ascii.compare a b) eqn:Eab; try discriminate;
    destruct (Ascii.compare b c) eqn:Ebc; try discriminate; intros H12 H23.
  - apply Ascii.compare_eq_iff in Eab, Ebc. subst.
    assert (E : Ascii.compare c c = Eq).
    { unfold Ascii.compare. apply N.compare_refl. }
    rewrite E. now apply (IH s2).
  - apply Ascii.compare_eq_iff in Eab. subst. now rewrite Ebc.
  - apply Ascii.compare_eq_iff in Ebc. subst. now rewrite Eab.
  - now rewrite (ascii_compare_lt_trans a b c).
Qed.

Lemma string_compare_refl (s : string) : String.compare s s = Eq.
Proof.
  induction s as [|a s IH]; simpl; [reflexivity|].
  unfold Ascii.compare. now rewrite N.compare_refl.
Qed.

Lemma string_leb_trans (x y z : string) :
  String.leb x y = true -> String.leb y z = true -> String.leb x z = true.
Proof.
  unfold String.leb.
  destruct (String.compare x y) eqn:Exy; try discriminate;
    destruct (String.compare y z) eqn:Eyz; try discriminate; intros _ _.
  - apply String.compare_eq_iff in Exy, Eyz. subst. now rewrite string_compare_refl.
  - apply String.compare_eq_iff in Exy. subst. now rewrite Eyz.
  - apply String.compare_eq_iff in Eyz. subst. now rewrite Exy.
  - now rewrite (string_compare_lt_trans x y z).
Qed.

Lemma string_leb_false (x y : string) :
  String.leb x y = false -> String.leb y x = true.
Proof.
  intros H. destruct (String.leb_total x y) as [E | E]; congruence.
Qed.

Lemma string_ltb_leb_neq (x y : string) :
  String.ltb x y = true <-> String.leb x y = true /\ x <> y.
Proof.
  unfold String.ltb, String.leb. split.
  - destruct (String.compare x y) eqn:E; try discriminate. intros _.
    split; [reflexivity|]. intros ->. rewrite string_compare_refl in E. discriminate.
  - intros [Hle Hne]. destruct (String.compare x y) eqn:E;
      [|reflexivity | discriminate].
    apply String.compare_eq_iff in E. contradiction.
Qed.

Lemma add_features_NoDup (doc vocabulary : list string) :
  NoDup vocabulary -> NoDup (fold_left add_feature doc vocabulary).
Proof.
  revert vocabulary. induction doc as [|w doc IH]; simpl; intros vocabulary H;
    [assumption|].
  apply IH. unfold add_feature. destruct (contains vocabulary w) eqn:E;
    [assumption|].
  apply contains_false in E. apply NoDup_app; [assumption | repeat constructor; auto |].
  intros x Hx [<- | []]. contradiction.
Qed.

Lemma count_vocab_NoDup (analysed : list (list string)) : NoDup (count_vocab analysed).
Proof.
  unfold count_vocab. generalize (NoDup_nil string).
  generalize (@nil string) as vocabulary.
  induction analysed as [|doc analysed IH]; simpl; intros vocabulary H;
    [assumption|].
  apply IH. now apply add_features_NoDup.
Qed.

(** The feature names of a corpus are strictly increasing. *)
Lemma corpus_features_increasing (nltk : Nltk) (comments : list string) :
  StronglySorted (fun a b => String.ltb a b = true) (corpus_features nltk comments).
Proof.
  unfold corpus_features.
  set (vocabulary := count_vocab _).
  assert (Hnodup : NoDup (sort String.leb vocabulary)).
  { apply (Permutation_NoDup (Permutation_sym (sort_perm _ _))).
    apply count_vocab_NoDup. }
  pose proof (sort_sorted String.leb string_leb_false string_leb_trans vocabulary)
    as Hsorted.
  induction Hsorted as [|a l Hl IH Ha]; constructor.
  - apply IH. now inversion Hnodup.
  - apply Forall_forall. intros b Hb. apply string_ltb_leb_neq.
    rewrite Forall_forall in Ha. split; [now apply Ha|].
    intros ->. inversion Hnodup. contradiction.
Qed.

Lemma increasing_unique (l1 l2 : list string) :
  StronglySorted (fun a b => String.ltb a b = true) l1 ->
  StronglySorted (fun a b => String.ltb a b = true) l2 ->
  (forall x, In x l1 <-> In x l2) ->
  l1 = l2.
Proof.
  assert (Hasym : forall a b, String.ltb a b = true -> String.ltb b a = true -> False).
  { intros a b Hab Hba. apply string_ltb_leb_neq in Hab, Hba.
    destruct Hab as [Hab Hne], Hba as [Hba _].
    apply Hne. now apply String.leb_antisym. }
  intros H1. revert l2. induction H1 as [|a l1 Hl1 IH Ha]; intros l2 H2 Hsame.
  - destruct l2 as [|b l2]; [reflexivity|].
    destruct (proj2 (Hsame b) (or_introl eq_refl)).
  - destruct H2 as [|b l2 Hl2 Hb].
    { destruct (proj1 (Hsame a) (or_introl eq_refl)). }
    rewrite Forall_forall in Ha, Hb.
    assert (Hab : a = b).
    { destruct (proj1 (Hsame a) (or_introl eq_refl)) as [E | Hin]; [now symmetry|].
      destruct (proj2 (Hsame b) (or_introl eq_refl)) as [E | Hin']; [assumption|].
      exfalso. apply (Hasym a b); [now apply Ha | now apply Hb]. }
    subst b. f_equal. apply IH; [assumption|].
    intros x. split; intros Hx.
    + destruct (proj1 (Hsame x) (or_intror Hx)) as [E | Hin]; [|assumption].
      subst x. exfalso. apply (Hasym a a); now apply Ha.
    + destruct (proj2 (Hsame x) (or_intror Hx)) as [E | Hin]; [|assumption].
      subst x. exfalso. apply (Hasym a a); now apply Hb.
Qed.

Lemma fitted_feature_names (nltk : Nltk)
  (lda_components : list (list nat) -> Z -> Z -> list (list Q))
  (comments : list string) (k seed : Z) (model : Pipeline) :
  fit_transform lda_components (make_model nltk k seed) comments = Ok model ->
  get_feature_names (tfidfvectorizer model) = Ok (corpus_features nltk comments).
Proof.
  unfold fit_transform. rewrite vectorizer_fit_transform_model.
  destruct (corpus_features nltk comments) as [|f fs] eqn:E; [discriminate|].
  cbn [bind snd fst]. unfold lda_fit.
  destruct (_ <=? 0)%Z; [discriminate|].
  cbn [bind]. intros [= <-]. reflexivity.
Qed.

(** X5: the feature names of the fitted vectorizer, which [display_topics]
    receives as [vocab], are in strictly increasing lexicographic order; no
    term has two columns. *)
Theorem feature_names_strictly_increasing (nltk : Nltk)
  (lda_components : list (list nat) -> Z -> Z -> list (list Q))
  (comments : list string) (k seed : Z) (model : Pipeline) :
  fit_transform lda_components (make_model nltk k seed) comments = Ok model ->
  exists features,
    get_feature_names (tfidfvectorizer model) = Ok features /\
    StronglySorted (fun a b => String.ltb a b = true) features /\
    NoDup features.
Proof.
  intros Hfit. exists (corpus_features nltk comments).
  split; [now apply (fitted_feature_names nltk lda_components comments k seed)|].
  split; [apply corpus_features_increasing|].
  unfold corpus_features.
  apply (Permutation_NoDup (Permutation_sym (sort_perm _ _))), count_vocab_NoDup.
Qed.

(** X6: the feature names depend only on which comments there are once
    lower-cased: reordering the comments, repeating one or changing the
    letter case of one leaves the columns and their order unchanged. *)
Theorem feature_names_ignore_order_and_case (nltk : Nltk)
  (lda_components : list (list nat) -> Z -> Z -> list (list Q))
  (comments1 comments2 : list string) (k seed : Z) (model1 model2 : Pipeline) :
  (forall doc, In doc (map lower comments1) <-> In doc (map lower comments2)) ->
  fit_transform lda_components (make_model nltk k seed) comments1 = Ok model1 ->
  fit_transform lda_components (make_model nltk k seed) comments2 = Ok model2 ->
  get_feature_names (tfidfvectorizer model1)
  = get_feature_names (tfidfvectorizer model2).
Proof.
  intros Hsame Hfit1 Hfit2.
  rewrite (fitted_feature_names _ _ _ _ _ _ Hfit1),
          (fitted_feature_names _ _ _ _ _ _ Hfit2).
  f_equal. apply increasing_unique; try apply corpus_features_increasing.
  intros term. rewrite !corpus_features_In.
  assert (Hmove : forall c1 c2 : list string,
             (forall doc, In doc (map lower c1) -> In doc (map lower c2)) ->
             (exists doc, In doc c1 /\ In term (tokens_of nltk (lower doc))) ->
             exists doc, In doc c2 /\ In term (tokens_of nltk (lower doc))).
  { intros c1 c2 Hincl [doc [Hdoc Hterm]].
    assert (Hl : In (lower doc) (map lower c2)).
    { apply Hincl, in_map_iff. now exists doc. }
    apply in_map_iff in Hl. destruct Hl as [doc' [E Hdoc']].
    exists doc'. now rewrite E. }
  split; apply Hmove; intros doc; apply Hsame.
Qed.

Lemma feature_names_strictly_increasing_witness :
  exists model,
    fit_transform sample_lda
      (make_model (sample_nltk no_lemmas ["bad"; "service"; "slow"] ["is"]) 3 42)
      ["Bad service"; "service is SLOW"]
    = Ok model /\
    exists features,
      get_feature_names (tfidfvectorizer model) = Ok features /\
      StronglySorted (fun a b => String.ltb a b = true) features /\
      NoDup features.
Proof.
  eexists. split; [reflexivity|].
  apply (feature_names_strictly_increasing
           (sample_nltk no_lemmas ["bad"; "service"; "slow"] ["is"]) sample_lda
           ["Bad service"; "service is SLOW"] 3 42).
  reflexivity.
Defined.

Lemma feature_names_ignore_order_and_case_witness :
  exists model1 model2,
    fit_transform sample_lda
      (make_model (sample_nltk no_lemmas ["bad"; "slow"] []) 3 42)
      ["bad"; "Slow"]
    = Ok model1 /\
    fit_transform sample_lda
      (make_model (sample_nltk no_lemmas ["bad"; "slow"] []) 3 42)
      ["slow"; "Bad"; "bad"]
    = Ok model2 /\
    get_feature_names (tfidfvectorizer model1)
    = get_feature_names (tfidfvectorizer model2).
Proof.
  eexists. eexists. split; [reflexivity|]. split; [reflexivity|].
  apply (feature_names_ignore_order_and_case
           (sample_nltk no_lemmas ["bad"; "slow"] []) sample_lda
           ["bad"; "Slow"] ["slow"; "Bad"; "bad"] 3 42).
  - intros doc. simpl. tauto.
  - reflexivity.
  - reflexivity.
Defined.

(** ** [display_topics], continued *)

Lemma comprehension_length {A B : Type} (f : A -> result B) (xs : list A) (ys : list B) :
  comprehension f xs = Ok ys -> length ys = length xs.
Proof.
  revert ys. induction xs as [|x xs IH]; simpl; intros ys.
  - now intros [= <-].
  - destruct (f x) as [y|e]; simpl; [|discriminate].
    destruct (comprehension f xs) as [ys'|e]; simpl; [|discriminate].
    intros [= <-]. simpl. now rewrite (IH ys' eq_refl).
Qed.

Lemma comprehension_raises {A B : Type} (f : A -> result B) (xs : list A) :
  (exists x, In x xs /\ exists e, f x = Raise e) ->
  exists x e, In x xs /\ f x = Raise e /\ comprehension f xs = Raise e.
Proof.
  induction xs as [|x xs IH]; intros [x0 [Hin [e0 He0]]]; [destruct Hin|].
  simpl. destruct (f x) as [y|e] eqn:E.
  - destruct Hin as [-> | Hin]; [congruence|].
    destruct IH as [x1 [e1 (Hin1 & Hf1 & Hc1)]]; [now exists x0; eauto|].
    exists x1, e1. simpl. rewrite Hc1. auto.
  - exists x, e. auto.
Qed.

Lemma comprehension_raise_inv {A B : Type} (f : A -> result B) (xs : list A) (e : exn) :
  comprehension f xs = Raise e -> exists x, In x xs /\ f x = Raise e.
Proof.
  induction xs as [|x xs IH]; simpl; [discriminate|].
  destruct (f x) as [y|e'] eqn:E; simpl.
  - destruct (comprehension f xs) as [ys|e'']; simpl; [discriminate|].
    intros [= ->]. destruct (IH eq_refl) as [x0 [Hin Hx0]]. exists x0. auto.
  - intros [= ->]. exists x. auto.
Qed.

(** The first loop of [display_topics] is a comprehension over the topics. *)
Lemma collect_topic_words_from_any (n : Z) (vocab : list string)
  (components : list (list Q)) (s : nat) (acc : list (nat * list string)) :
  (forall k, In k (map fst acc) -> k < s) ->
  for_each
    (fun topic_words entry =>
       words <- comprehension (getitem vocab) (top_word_idx n (snd entry)) ;;
       Ok (setitem topic_words (fst entry) words))
    (combine (seq s (length components)) components) acc
  = (all_words <-
       comprehension
         (fun component => comprehension (getitem vocab) (top_word_idx n component))
         components ;;
     Ok (acc ++ combine (seq s (length components)) all_words)).
Proof.
  revert s acc. induction components as [|row components IH]; simpl; intros s acc Hacc.
  - now rewrite app_nil_r.
  - destruct (comprehension (getitem vocab) (top_word_idx n row)) as [ws|e];
      simpl; [|reflexivity].
    rewrite setitem_fresh by (intros H; apply Hacc in H; lia).
    rewrite IH.
    + destruct (comprehension _ components) as [all_words|e]; simpl; [|reflexivity].
      now rewrite <- app_assoc.
    + intros k Hk. rewrite map_app, in_app_iff in Hk. simpl in Hk.
      destruct Hk as [Hk | [<- | []]]; [apply Hacc in Hk|]; lia.
Qed.

Lemma collect_topic_words_comprehension (n : Z) (vocab : list string)
  (components : list (list Q)) :
  collect_topic_words n vocab components
  = (all_words <-
       comprehension
         (fun component => comprehension (getitem vocab) (top_word_idx n component))
         components ;;
     Ok (combine (seq 0 (length components)) all_words)).
Proof.
  unfold collect_topic_words, enumerate.
  now rewrite (collect_topic_words_from_any n vocab components 0 []).
Qed.

Lemma getitem_raises (vocab : list string) (i : nat) (e : exn) :
  getitem vocab i = Raise e ->
  length vocab <= i /\ e = IndexError "list index out of range".
Proof.
  unfold getitem. destruct (nth_error vocab i) eqn:E; [discriminate|].
  intros [= <-]. split; [now apply nth_error_None | reflexivity].
Qed.

(** X7: with a fitted model, [display_topics] raises an [IndexError], and
    prints nothing, as soon as one of the top words asked for lies beyond the
    end of [vocab]. *)
Theorem display_topics_short_vocab {T : Type} (model : Pipeline) (n : Z)
  (model_pipeline : T) (vocab : list string) (components : list (list Q)) :
  components_ (latentdirichletallocation model) = Some components ->
  (exists component i,
      In component components /\ In i (top_word_idx n component) /\
      length vocab <= i) ->
  display_topics model n model_pipeline vocab
  = Raise (IndexError "list index out of range").
Proof.
  intros Hfitted [component [i (Hc & Hi & Hlen)]].
  unfold display_topics, fitted_components. rewrite Hfitted. cbn [bind].
  rewrite collect_topic_words_comprehension.
  destruct (comprehension_raises (getitem vocab) (top_word_idx n component))
    as [i1 [e1 (Hi1 & Hget & Hrow)]].
  { exists i. split; [assumption|]. unfold getitem.
    destruct (nth_error vocab i) eqn:E; [|eauto].
    assert (H : nth_error vocab i <> None) by congruence.
    apply nth_error_Some in H. lia. }
  destruct (comprehension_raises
              (fun c => comprehension (getitem vocab) (top_word_idx n c)) components)
    as [c2 [e2 (Hc2 & Hrow2 & Hall)]].
  { exists component. split; [assumption|]. now exists e1. }
  rewrite Hall. cbn [bind]. f_equal.
  apply comprehension_raise_inv in Hrow2. destruct Hrow2 as [i2 [_ Hget2]].
  now apply getitem_raises in Hget2.
Qed.

Lemma print_topic_words_lines (all_words : list (list string)) (s t : nat)
  (words : list string) :
  nth_error all_words t = Some words ->
  nth_error (print_topic_words (combine (seq s (length all_words)) all_words)) (2 * t)
  = Some ("Topic: " ++ str (s + t + 1))%string /\
  nth_error (print_topic_words (combine (seq s (length all_words)) all_words))
            (2 * t + 1)
  = Some ("Words:  " ++ join ", " words)%string.
Proof.
  revert s t. induction all_words as [|ws all_words IH]; intros s t Hnth.
  - destruct t; discriminate.
  - cbn [length seq combine].
    change (print_topic_words ((s, ws) :: combine (seq (S s) (length all_words)) all_words))
      with (("Topic: " ++ str (s + 1))%string
            :: ("Words:  " ++ join ", " ws)%string
            :: print_topic_words (combine (seq (S s) (length all_words)) all_words)).
    destruct t as [|t].
    + injection Hnth as <-. change (2 * 0) with 0. cbn [Nat.add nth_error].
      now rewrite Nat.add_0_r.
    + cbn [nth_error] in Hnth.
      replace (2 * S t) with (S (S (2 * t))) by lia.
      replace (S (S (2 * t)) + 1) with (S (S (2 * t + 1))) by lia.
      cbn [nth_error]. destruct (IH (S s) t Hnth) as [H1 H2].
      rewrite H1, H2. split; [|reflexivity]. do 3 f_equal. lia.
Qed.

Lemma print_topic_words_length (topic_words : list (nat * list string)) :
  length (print_topic_words topic_words) = 2 * length topic_words.
Proof.
  induction topic_words as [|entry tw IH]; [reflexivity|].
  change (print_topic_words (entry :: tw))
    with (("Topic: " ++ str (fst entry + 1))%string
          :: ("Words:  " ++ join ", " (snd entry))%string :: print_topic_words tw).
  cbn [length]. rewrite IH. lia.
Qed.

(** X8: with a fitted model and every top word asked for within [vocab],
    [display_topics] prints two lines per topic, in the order of the topics:
    [Topic: t+1], then [Words:] followed by two blanks and the names of the
    topic's top columns joined by a comma and a blank. *)
Theorem display_topics_lines {T : Type} (model : Pipeline) (n : Z)
  (model_pipeline : T) (vocab : list string) (components : list (list Q)) :
  components_ (latentdirichletallocation model) = Some components ->
  (forall component i,
      In component components -> In i (top_word_idx n component) ->
      i < length vocab) ->
  exists lines,
    display_topics model n model_pipeline vocab = Ok lines /\
    length lines = 2 * length components /\
    forall t component,
      nth_error components t = Some component ->
      nth_error lines (2 * t) = Some ("Topic: " ++ str (t + 1))%string /\
      nth_error lines (2 * t + 1)
      = Some ("Words:  " ++
              join ", " (map (fun i => nth i vocab "") (top_word_idx n component)))%string.
Proof.
  intros Hfitted Hrange.
  unfold display_topics, fitted_components. rewrite Hfitted. cbn [bind].
  rewrite collect_topic_words_comprehension.
  rewrite (comprehension_total _
             (fun component =>
                map (fun i => nth i vocab "") (top_word_idx n component))).
  2:{ intros component Hc. apply comprehension_getitem.
      intros i Hi. now apply (Hrange component). }
  cbn [bind]. eexists. split; [reflexivity|]. split.
  - rewrite print_topic_words_length, length_combine, length_seq, length_map. lia.
  - intros t component Hnth.
    rewrite <- (length_map
                  (fun component =>
                     map (fun i => nth i vocab "") (top_word_idx n component))
                  components).
    apply (print_topic_words_lines _ 0 t).
    now rewrite nth_error_map, Hnth.
Qed.

(** X9: a negative top-word count is not refused: the slice then drops the
    [-n] lowest-weighted columns of each topic and keeps the others, by
    descending weight. *)
Theorem negative_top_word_count (n : Z) (component : list Q) :
  (n < 0)%Z ->
  length (top_word_idx n component) = length component - Z.to_nat (- n) /\
  descending component (top_word_idx n component) /\
  top_ranked component (top_word_idx n component).
Proof.
  intros Hn. split.
  - unfold top_word_idx, slice_to.
    destruct (Z.leb_spec 0 n) as [H | _]; [lia|].
    rewrite length_firstn, length_rev.
    rewrite (Permutation_length (argsort_perm component)), length_seq. lia.
  - destruct (top_word_idx_spec n component) as (_ & _ & Hdesc & Htop & _).
    now split.
Qed.

Lemma map_nth_seq {A : Type} (d : A) (l : list A) :
  map (fun i => nth i l d) (seq 0 (length l)) = l.
Proof.
  induction l as [|x l IH]; [reflexivity|].
  cbn [length seq map nth]. f_equal.
  rewrite <- seq_shift, map_map. exact IH.
Qed.

(** X10: when the top-word count reaches the number of terms, every topic
    lists every term of [vocab] exactly once. *)
Theorem all_words_listed_once (n : Z) (vocab : list string) (component : list Q) :
  length component = length vocab ->
  (Z.of_nat (length vocab) <= n)%Z ->
  Permutation (map (fun i => nth i vocab "") (top_word_idx n component)) vocab.
Proof.
  intros Hlen Hn. unfold top_word_idx, slice_to.
  destruct (Z.leb_spec 0 n) as [_ | H]; [|lia].
  rewrite firstn_all2.
  2:{ rewrite length_rev, (Permutation_length (argsort_perm component)), length_seq.
      lia. }
  assert (Hperm : Permutation (rev (argsort component)) (seq 0 (length vocab))).
  { rewrite <- Permutation_rev, <- Hlen. apply argsort_perm. }
  apply (Permutation_map (fun i => nth i vocab "")) in Hperm.
  now rewrite map_nth_seq in Hperm.
Qed.

Section SortingMaps.

Context {A B : Type} (leb1 : A -> A -> bool) (leb2 : B -> B -> bool) (h : A -> B).
Hypothesis leb_h : forall a b, leb2 (h a) (h b) = leb1 a b.

Lemma insert_sorted_map (x : A) (l : list A) :
  insert_sorted leb2 (h x) (map h l) = map h (insert_sorted leb1 x l).
Proof.
  induction l as [|y l IH]; simpl; [reflexivity|].
  rewrite leb_h. destruct (leb1 x y); simpl; [reflexivity|]. now rewrite IH.
Qed.

Lemma sort_map (l : list A) : sort leb2 (map h l) = map h (sort leb1 l).
Proof.
  induction l as [|x l IH]; simpl; [reflexivity|].
  now rewrite IH, insert_sorted_map.
Qed.

End SortingMaps.

Lemma enumerate_from_map {A B : Type} (g : A -> B) (xs : list A) (s : nat) :
  combine (seq s (length (map g xs))) (map g xs)
  = map (fun entry => (fst entry, g (snd entry))) (combine (seq s (length xs)) xs).
Proof.
  revert s. induction xs as [|x xs IH]; simpl; intros s; [reflexivity|].
  now rewrite IH.
Qed.

(** X11: the top words of a topic depend on the order of its weights only:
    a transformation of the weights that keeps their order, such as
    normalising them, changes no ranking. *)
Theorem top_words_depend_on_order_only (g : Q -> Q) (n : Z) (component : list Q) :
  (forall x y, Qle_bool (g x) (g y) = Qle_bool x y) ->
  top_word_idx n (map g component) = top_word_idx n component.
Proof.
  intros Hg. unfold top_word_idx, argsort, enumerate. do 2 f_equal.
  rewrite enumerate_from_map.
  rewrite (sort_map weight_leb weight_leb
                    (fun entry : nat * Q => (fst entry, g (snd entry)))).
  - now rewrite map_map.
  - intros a b. unfold weight_leb. cbn [snd]. apply Hg.
Qed.

Lemma doubling_keeps_order (x y : Q) :
  Qle_bool ((2 # 1) * x) ((2 # 1) * y) = Qle_bool x y.
Proof.
  apply eq_true_iff_eq. rewrite !Qle_bool_iff.
  apply Qmult_le_l. reflexivity.
Qed.

(** *** [display_topics] on a small fitted model *)

Lemma display_topics_short_vocab_witness :
  display_topics (fitted_sample [[1 # 1; 3 # 1; 2 # 1]]%Q) 5 tt ["agent"; "bad"]
  = Raise (IndexError "list index out of range").
Proof.
  apply (display_topics_short_vocab _ _ _ _ [[1 # 1; 3 # 1; 2 # 1]]%Q).
  - reflexivity.
  - exists [1 # 1; 3 # 1; 2 # 1]%Q, 2.
    split; [now left|]. split; [vm_compute; tauto | simpl; lia].
Defined.

Lemma display_topics_lines_witness :
  exists lines,
    display_topics (fitted_sample [[1 # 1; 3 # 1; 2 # 1]; [5 # 1; 0 # 1; 4 # 1]]%Q)
                   2 tt ["agent"; "bad"; "service"]
    = Ok lines /\
    length lines = 2 * length [[1 # 1; 3 # 1; 2 # 1]; [5 # 1; 0 # 1; 4 # 1]]%Q /\
    forall t component,
      nth_error [[1 # 1; 3 # 1; 2 # 1]; [5 # 1; 0 # 1; 4 # 1]]%Q t = Some component ->
      nth_error lines (2 * t) = Some ("Topic: " ++ str (t + 1))%string /\
      nth_error lines (2 * t + 1)
      = Some ("Words:  " ++
              join ", " (map (fun i => nth i ["agent"; "bad"; "service"] "")
                             (top_word_idx 2 component)))%string.
Proof.
  apply display_topics_lines.
  - reflexivity.
  - intros component i [<- | [<- | []]] Hi; vm_compute in Hi;
      destruct Hi as [<- | [<- | []]]; simpl; lia.
Defined.

Lemma negative_top_word_count_witness :
  length (top_word_idx (-1) [1 # 1; 3 # 1; 2 # 1]%Q)
  = length [1 # 1; 3 # 1; 2 # 1]%Q - Z.to_nat (- (-1)) /\
  descending [1 # 1; 3 # 1; 2 # 1]%Q (top_word_idx (-1) [1 # 1; 3 # 1; 2 # 1]%Q) /\
  top_ranked [1 # 1; 3 # 1; 2 # 1]%Q (top_word_idx (-1) [1 # 1; 3 # 1; 2 # 1]%Q).
Proof.
  apply negative_top_word_count. reflexivity.
Defined.

Lemma all_words_listed_once_witness :
  Permutation
    (map (fun i => nth i ["agent"; "bad"; "service"] "")
         (top_word_idx 5 [1 # 1; 3 # 1; 2 # 1]%Q))
    ["agent"; "bad"; "service"].
Proof.
  apply all_words_listed_once; [reflexivity | simpl; lia].
Defined.

Lemma top_words_depend_on_order_only_witness :
  top_word_idx 2 (map (Qmult (2 # 1)) [1 # 1; 3 # 1; 2 # 1]%Q)
  = top_word_idx 2 [1 # 1; 3 # 1; 2 # 1]%Q.
Proof.
  apply top_words_depend_on_order_only. exact doubling_keeps_order.
Defined.

Lemma NoDup_map_injective_on {A B : Type} (f : A -> B) (l : list A) :
  (forall x y, In x l -> In y l -> f x = f y -> x = y) ->
  NoDup l -> NoDup (map f l).
Proof.
  intros Hinj Hl. induction Hl as [|x l Hx Hl IH]; simpl; constructor.
  - intros Hin. apply in_map_iff in Hin. destruct Hin as [y [E Hy]].
    apply Hx. rewrite (Hinj x y); auto; [now left | now right].
  - apply IH. intros a b Ha Hb. apply Hinj; now right.
Qed.

(** X12: when [vocab] names no term twice, as the fitted vectorizer's feature
    names do, and the top words asked for lie within it, no word is listed
    twice for a topic. *)
Theorem top_words_are_distinct (n : Z) (vocab : list string) (component : list Q) :
  NoDup vocab ->
  (forall i, In i (top_word_idx n component) -> i < length vocab) ->
  NoDup (map (fun i => nth i vocab "") (top_word_idx n component)).
Proof.
  intros Hvocab Hrange.
  destruct (top_word_idx_spec n component) as (Hidx & _).
  apply NoDup_map_injective_on; [|assumption].
  intros i j Hi Hj E.
  apply (proj1 (NoDup_nth vocab "") Hvocab); auto.
Qed.

Lemma top_words_are_distinct_witness :
  NoDup (map (fun i => nth i ["agent"; "bad"; "service"] "")
             (top_word_idx 2 [1 # 1; 3 # 1; 2 # 1]%Q)).
Proof.
  apply top_words_are_distinct.
  - repeat constructor; simpl; intuition discriminate.
  - intros i Hi. vm_compute in Hi. destruct Hi as [<- | [<- | []]]; simpl; lia.
Defined.

(** ** The report of the topic extractor *)

(** C6: when the fitted topic model has [k] topics, each with one weight per
    feature name, and the top-word count [n] does not exceed the number of
    feature names, the topic extractor prints exactly [2 * k] lines, two per
    topic in the order of the topics: the heading [Topic: t+1], numbered from
    1, and the line [Words:] listing exactly [n] distinct feature names,
    joined by a comma and a blank, by descending weight in the topic, no
    term left out weighing more than a listed one. *)
Theorem topic_extractor_report_shape (nltk : Nltk)
  (lda_components : list (list nat) -> Z -> Z -> list (list Q))
  (comments : list string) (k n seed : Z) :
  (0 < k)%Z ->
  corpus_features nltk comments <> [] ->
  (0 <= n <= Z.of_nat (length (corpus_features nltk comments)))%Z ->
  length (lda_components (corpus_counts nltk comments) k seed) = Z.to_nat k ->
  Forall (fun component =>
            length component = length (corpus_features nltk comments))
         (lda_components (corpus_counts nltk comments) k seed) ->
  exists lines,
    topic_extractor nltk lda_components comments k n seed = Ok lines /\
    length lines = 2 * Z.to_nat k /\
    forall t component,
      nth_error (lda_components (corpus_counts nltk comments) k seed) t
      = Some component ->
      nth_error lines (2 * t) = Some ("Topic: " ++ str (t + 1))%string /\
      exists idx,
        nth_error lines (2 * t + 1)
        = Some ("Words:  " ++
                join ", "
                     (map (fun i => nth i (corpus_features nltk comments) "") idx))%string /\
        length (map (fun i => nth i (corpus_features nltk comments) "") idx)
        = Z.to_nat n /\
        NoDup idx /\
        (forall i, In i idx -> i < length (corpus_features nltk comments)) /\
        descending component idx /\
        top_ranked component idx.
Proof.
  intros Hk Hfeatures Hn Hrows Hshape.
  rewrite topic_extractor_cases.
  destruct (corpus_features nltk comments) as [|f fs] eqn:E; [congruence|].
  destruct (Z.leb_spec k 0) as [Hk' | _]; [lia|].
  rewrite <- E in *.
  set (components := lda_components (corpus_counts nltk comments) k seed) in *.
  rewrite collect_topic_words_comprehension.
  rewrite (comprehension_total _
             (fun component =>
                map (fun i => nth i (corpus_features nltk comments) "")
                    (top_word_idx n component))).
  2:{ intros component Hc. apply comprehension_getitem. intros i Hi.
      rewrite Forall_forall in Hshape. rewrite <- (Hshape component Hc).
      now apply (top_word_idx_spec n component). }
  cbn [bind]. eexists. split; [reflexivity|]. split.
  - rewrite print_topic_words_length, length_combine, length_seq, length_map. lia.
  - intros t component Hnth.
    assert (Hc : In component components) by now apply nth_error_In in Hnth.
    rewrite Forall_forall in Hshape. specialize (Hshape component Hc).
    destruct (top_word_idx_spec n component) as (Hnodup & Hlt & Hdesc & Htop & Hlen).
    rewrite <- (length_map
                  (fun component =>
                     map (fun i => nth i (corpus_features nltk comments) "")
                         (top_word_idx n component))
                  components).
    destruct (print_topic_words_lines
                (map (fun component =>
                        map (fun i => nth i (corpus_features nltk comments) "")
                            (top_word_idx n component))
                     components)
                0 t
                (map (fun i => nth i (corpus_features nltk comments) "")
                     (top_word_idx n component)))
      as [Hheading Hwords].
    { now rewrite nth_error_map, Hnth. }
    split; [exact Hheading|].
    exists (top_word_idx n component).
    split; [exact Hwords|]. split.
    { rewrite length_map, Hlen by lia. lia. }
    repeat split; try assumption.
    intros i Hi. rewrite <- Hshape. now apply Hlt.
Qed.

Lemma topic_extractor_report_shape_witness :
  exists lines,
    topic_extractor complaints_nltk sample_lda complaints
                    Cells.number_of_topics Cells.number_of_top_words Cells.seed
    = Ok lines /\
    length lines = 2 * Z.to_nat Cells.number_of_topics /\
    forall t component,
      nth_error (sample_lda (corpus_counts complaints_nltk complaints)
                            Cells.number_of_topics Cells.seed) t
      = Some component ->
      nth_error lines (2 * t) = Some ("Topic: " ++ str (t + 1))%string /\
      exists idx,
        nth_error lines (2 * t + 1)
        = Some ("Words:  " ++
                join ", "
                     (map (fun i => nth i (corpus_features complaints_nltk complaints) "")
                          idx))%string /\
        length (map (fun i => nth i (corpus_features complaints_nltk complaints) "") idx)
        = Z.to_nat Cells.number_of_top_words /\
        NoDup idx /\
        (forall i, In i idx -> i < length (corpus_features complaints_nltk complaints)) /\
        descending component idx /\
        top_ranked component idx.
Proof.
  apply topic_extractor_report_shape.
  - reflexivity.
  - vm_compute. discriminate.
  - vm_compute. split; discriminate.
  - reflexivity.
  - repeat constructor.
Defined.

(** With the only comment capitalised, the normalizer itself returns no
    token for it, and yet the run prints a report: the vectorizer has
    lower-cased the comment first. *)
Lemma capitalised_comment_is_reported :
  tokenize (sample_nltk no_lemmas ["service"] []) (Str "Service") = Ok [] /\
  topic_extractor (sample_nltk no_lemmas ["service"] []) sample_lda ["Service"] 1 5 42
  = Ok ["Topic: 1"; "Words:  service"].
Proof. split; reflexivity. Qed.
